(** * GDJS runtime namespace ([GDJS/Runtime/gd.js]): type registries and
    global lifecycle callbacks.

    The [gdjs] namespace object holds two hashtables of constructors (object
    types and behavior types) and five arrays of callbacks.  The functions of
    the file are embedded as computations over an explicit world made of the
    [gdjs] object, the host [console] object and the text printed so far.
    A JavaScript exception is an abrupt completion of the computation.

    The helpers of the file come after: the color conversions on integers,
    the random integers over an explicit draw, the two array methods added
    to [Array.prototype], the loops of [objectsListsToArray], and the static
    arrays and objects over a store of objects. *)

From stdpp Require Import gmap strings list.

Open Scope string_scope.
Open Scope list_scope.

(** ** JavaScript values *)

(** Constructors and callbacks are never inspected by this file: they are
    stored and handed back.  A value is [undefined] or a reference to some
    object (a function, usually), compared by identity. *)
Inductive value : Type :=
| Undefined
| Ref (r : nat).

Global Instance value_eq_dec : EqDecision value.
Proof. solve_decision. Defined.

(** The [name] argument of the lookups: documented as a string, and tested
    against [undefined] by the code. *)
Inductive ident : Type :=
| IUndefined
| IString (s : string).

Global Instance ident_eq_dec : EqDecision ident.
Proof. solve_decision. Defined.

(** [name !== undefined] *)
Definition is_defined (name : ident) : bool :=
  match name with
  | IUndefined => false
  | IString _ => true
  end.

(** JavaScript's ToString, used by [+] on strings and by property keys. *)
Definition toString (name : ident) : string :=
  match name with
  | IUndefined => "undefined"
  | IString s => s
  end.

(** The double quote character inside the messages. *)
Definition dquote : string := String (Ascii.ascii_of_nat 34) EmptyString.

(** ** Hashtable *)

Module Hashtable.

Abbreviation t := (gmap string value).

Definition new : t := ∅.

(** Modelled from the spec: the [put] method of the [Hashtable] class (its
    file is not part of the sources at hand).  A registry is a mapping from
    type identifier to constructor entry with unique keys, where the last
    registration for a key wins.  Keys are strings; a key that is not a
    string is converted with ToString, as every JavaScript property key
    is. *)
Definition put (key : ident) (v : value) (h : t) : t :=
  <[toString key := v]> h.

(** Modelled from the spec: [containsKey], whether the identifier is
    present in the registry. *)
Definition containsKey (key : ident) (h : t) : bool :=
  bool_decide (is_Some (h !! toString key)).

(** Modelled from the spec: [get], the entry registered under the
    identifier; [undefined] when there is none. *)
Definition get (key : ident) (h : t) : value :=
  default Undefined (h !! toString key).

End Hashtable.

(** ** The [gdjs] namespace object *)

Record Gdjs : Type := MkGdjs {
  objectsTypes : Hashtable.t;
  behaviorsTypes : Hashtable.t;
  evtTools : gmap string value;
  callbacksRuntimeSceneLoaded : list value;
  callbacksRuntimeSceneUnloaded : list value;
  callbacksRuntimeScenePaused : list value;
  callbacksRuntimeSceneResumed : list value;
  callbacksObjectDeletedFromScene : list value
}.

(** [window.gdjs = { ... }] *)
Definition gdjs_new : Gdjs :=
  {| objectsTypes := Hashtable.new;
     behaviorsTypes := Hashtable.new;
     evtTools := ∅;
     callbacksRuntimeSceneLoaded := [];
     callbacksRuntimeSceneUnloaded := [];
     callbacksRuntimeScenePaused := [];
     callbacksRuntimeSceneResumed := [];
     callbacksObjectDeletedFromScene := [] |}.

Definition with_objectsTypes (h : Hashtable.t) (g : Gdjs) : Gdjs :=
  MkGdjs h (behaviorsTypes g) (evtTools g)
         (callbacksRuntimeSceneLoaded g) (callbacksRuntimeSceneUnloaded g)
         (callbacksRuntimeScenePaused g) (callbacksRuntimeSceneResumed g)
         (callbacksObjectDeletedFromScene g).

Definition with_behaviorsTypes (h : Hashtable.t) (g : Gdjs) : Gdjs :=
  MkGdjs (objectsTypes g) h (evtTools g)
         (callbacksRuntimeSceneLoaded g) (callbacksRuntimeSceneUnloaded g)
         (callbacksRuntimeScenePaused g) (callbacksRuntimeSceneResumed g)
         (callbacksObjectDeletedFromScene g).

Definition with_callbacksRuntimeSceneLoaded (l : list value) (g : Gdjs) : Gdjs :=
  MkGdjs (objectsTypes g) (behaviorsTypes g) (evtTools g)
         l (callbacksRuntimeSceneUnloaded g)
         (callbacksRuntimeScenePaused g) (callbacksRuntimeSceneResumed g)
         (callbacksObjectDeletedFromScene g).

Definition with_callbacksRuntimeSceneUnloaded (l : list value) (g : Gdjs) : Gdjs :=
  MkGdjs (objectsTypes g) (behaviorsTypes g) (evtTools g)
         (callbacksRuntimeSceneLoaded g) l
         (callbacksRuntimeScenePaused g) (callbacksRuntimeSceneResumed g)
         (callbacksObjectDeletedFromScene g).

Definition with_callbacksRuntimeScenePaused (l : list value) (g : Gdjs) : Gdjs :=
  MkGdjs (objectsTypes g) (behaviorsTypes g) (evtTools g)
         (callbacksRuntimeSceneLoaded g) (callbacksRuntimeSceneUnloaded g)
         l (callbacksRuntimeSceneResumed g)
         (callbacksObjectDeletedFromScene g).

Definition with_callbacksRuntimeSceneResumed (l : list value) (g : Gdjs) : Gdjs :=
  MkGdjs (objectsTypes g) (behaviorsTypes g) (evtTools g)
         (callbacksRuntimeSceneLoaded g) (callbacksRuntimeSceneUnloaded g)
         (callbacksRuntimeScenePaused g) l
         (callbacksObjectDeletedFromScene g).

Definition with_callbacksObjectDeletedFromScene (l : list value) (g : Gdjs) : Gdjs :=
  MkGdjs (objectsTypes g) (behaviorsTypes g) (evtTools g)
         (callbacksRuntimeSceneLoaded g) (callbacksRuntimeSceneUnloaded g)
         (callbacksRuntimeScenePaused g) (callbacksRuntimeSceneResumed g)
         l.

(** ** The host console *)

(** What a console method does with its argument: print it at some level. *)
Inductive level : Type := Log | Info | Warn | Error | Debug.

Global Instance level_eq_dec : EqDecision level.
Proof. solve_decision. Defined.

Record diagnostic : Type := Diag {
  diag_level : level;
  diag_text : string
}.

(** The [console] object is the map of its function-valued properties, by
    name.  A name outside the map is a property whose value is [undefined].
    The console of the Console standard, as browsers and Node.js have it
    (the printing methods): *)
Definition standard_console : gmap string level :=
  {[ "log" := Log; "info" := Info; "warn" := Warn;
     "error" := Error; "debug" := Debug ]}.

(** [console.m = console.m || console.log] *)
Definition or_log (m : string) (c : gmap string level) : gmap string level :=
  match c !! m with
  | Some f => <[m := f]> c
  | None =>
      match c !! "log" with
      | Some f => <[m := f]> c
      | None => c
      end
  end.

(** ** Worlds and computations *)

Record world : Type := World {
  gdjs : Gdjs;
  console : gmap string level;
  output : list diagnostic
}.

Inductive exn : Type :=
| TypeError (msg : string).

Inductive completion (A : Type) : Type :=
| Normal (a : A)
| Throw (e : exn).
Arguments Normal {A} a.
Arguments Throw {A} e.

Definition M (A : Type) : Type := world → completion A * world.

Global Instance M_ret : MRet M := λ A a w, (Normal a, w).

Global Instance M_bind : MBind M := λ A B f m w,
  match m w with
  | (Normal a, w') => f a w'
  | (Throw e, w') => (Throw e, w')
  end.

(** Reading the namespace object and mutating it in place. *)
Definition read : M Gdjs := λ w, (Normal (gdjs w), w).

Definition update (f : Gdjs → Gdjs) : M () :=
  λ w, (Normal (), World (f (gdjs w)) (console w) (output w)).

(** [console.m(msg)]: calling a property that is not a function throws. *)
Definition console_call (m : string) (msg : string) : M value :=
  λ w, match console w !! m with
       | Some lvl =>
           (Normal Undefined,
            World (gdjs w) (console w) (output w ++ [Diag lvl msg]))
       | None =>
           (Throw (TypeError ("console." +:+ m +:+ " is not a function")), w)
       end.

(** [arr.push(x)] *)
Definition push (x : value) (arr : list value) : list value := arr ++ [x].

(** ** The functions of the file *)

Definition registerObject (objectTypeName : ident) (Ctor : value) : M value :=
  update (λ g, with_objectsTypes
                 (Hashtable.put objectTypeName Ctor (objectsTypes g)) g);;
  mret Undefined.

Definition registerBehavior (behaviorTypeName : ident) (Ctor : value) : M value :=
  update (λ g, with_behaviorsTypes
                 (Hashtable.put behaviorTypeName Ctor (behaviorsTypes g)) g);;
  mret Undefined.

Definition registerRuntimeSceneLoadedCallback (callback : value) : M value :=
  update (λ g, with_callbacksRuntimeSceneLoaded
                 (push callback (callbacksRuntimeSceneLoaded g)) g);;
  mret Undefined.

Definition registerRuntimeSceneUnloadedCallback (callback : value) : M value :=
  update (λ g, with_callbacksRuntimeSceneUnloaded
                 (push callback (callbacksRuntimeSceneUnloaded g)) g);;
  mret Undefined.

Definition registerRuntimeScenePausedCallback (callback : value) : M value :=
  update (λ g, with_callbacksRuntimeScenePaused
                 (push callback (callbacksRuntimeScenePaused g)) g);;
  mret Undefined.

Definition registerRuntimeSceneResumedCallback (callback : value) : M value :=
  update (λ g, with_callbacksRuntimeSceneResumed
                 (push callback (callbacksRuntimeSceneResumed g)) g);;
  mret Undefined.

Definition registerObjectDeletedFromSceneCallback (callback : value) : M value :=
  update (λ g, with_callbacksObjectDeletedFromScene
                 (push callback (callbacksObjectDeletedFromScene g)) g);;
  mret Undefined.

Definition registerGlobalCallbacks : M value :=
  console_call "warning"
    "You're calling gdjs.registerGlobalCallbacks. This method is now useless and you must not call it anymore.";;
  mret Undefined.

Definition clearGlobalCallbacks : M value :=
  update (with_callbacksRuntimeSceneLoaded []);;
  update (with_callbacksRuntimeSceneUnloaded []);;
  update (with_callbacksRuntimeScenePaused []);;
  update (with_callbacksRuntimeSceneResumed []);;
  update (with_callbacksObjectDeletedFromScene []);;
  mret Undefined.

Definition getObjectConstructor (name : ident) : M value :=
  g ← read;
  if is_defined name && Hashtable.containsKey name (objectsTypes g)
  then mret (Hashtable.get name (objectsTypes g))
  else
    console_call "warn"
      ("Object type " +:+ dquote +:+ toString name +:+ dquote +:+ " was not found.");;
    g' ← read;
    mret (Hashtable.get (IString EmptyString) (objectsTypes g')).

Definition getBehaviorConstructor (name : ident) : M value :=
  g ← read;
  if is_defined name && Hashtable.containsKey name (behaviorsTypes g)
  then mret (Hashtable.get name (behaviorsTypes g))
  else
    console_call "warn"
      ("Behavior type " +:+ dquote +:+ toString name +:+ dquote +:+ " was not found.");;
    g' ← read;
    mret (Hashtable.get (IString EmptyString) (behaviorsTypes g')).

(** Loading the file in a host with console [host]: the namespace object is
    created, and the last two statements make sure [console.warn] and
    [console.error] are available. *)
Definition load (host : gmap string level) : world :=
  World gdjs_new (or_log "error" (or_log "warn" host)) [].

(** ** Events and histories *)

(** The five lifecycle events, each with its callback array and its
    registration function. *)
Inductive event : Type :=
| SceneLoaded
| SceneUnloaded
| ScenePaused
| SceneResumed
| ObjectDeletedFromScene.

Definition callbacks (e : event) (g : Gdjs) : list value :=
  match e with
  | SceneLoaded => callbacksRuntimeSceneLoaded g
  | SceneUnloaded => callbacksRuntimeSceneUnloaded g
  | ScenePaused => callbacksRuntimeScenePaused g
  | SceneResumed => callbacksRuntimeSceneResumed g
  | ObjectDeletedFromScene => callbacksObjectDeletedFromScene g
  end.

Definition registerCallback (e : event) : value → M value :=
  match e with
  | SceneLoaded => registerRuntimeSceneLoadedCallback
  | SceneUnloaded => registerRuntimeSceneUnloadedCallback
  | ScenePaused => registerRuntimeScenePausedCallback
  | SceneResumed => registerRuntimeSceneResumedCallback
  | ObjectDeletedFromScene => registerObjectDeletedFromSceneCallback
  end.

(** Modelled from the spec: the dispatch loop, which belongs to the scene
    code (not part of the sources at hand).  When a lifecycle event occurs
    the engine iterates the relevant list in registration order and invokes
    every callback synchronously.  The result is the sequence of callbacks
    invoked, first call first. *)
Fixpoint invoke_all (cbs : list value) (invoked : list value) : list value :=
  match cbs with
  | [] => invoked
  | cb :: rest => invoke_all rest (invoked ++ [cb])
  end.

Definition dispatch (e : event) (w : world) : list value :=
  invoke_all (callbacks e (gdjs w)) [].

(** A call of one of the functions of the file by some script of the page. *)
Inductive call : Type :=
| CallRegisterObject (objectTypeName : ident) (Ctor : value)
| CallRegisterBehavior (behaviorTypeName : ident) (Ctor : value)
| CallRegisterCallback (e : event) (callback : value)
| CallRegisterGlobalCallbacks
| CallClearGlobalCallbacks
| CallGetObjectConstructor (name : ident)
| CallGetBehaviorConstructor (name : ident).

Definition exec (c : call) : M value :=
  match c with
  | CallRegisterObject n ctor => registerObject n ctor
  | CallRegisterBehavior n ctor => registerBehavior n ctor
  | CallRegisterCallback e cb => registerCallback e cb
  | CallRegisterGlobalCallbacks => registerGlobalCallbacks
  | CallClearGlobalCallbacks => clearGlobalCallbacks
  | CallGetObjectConstructor n => getObjectConstructor n
  | CallGetBehaviorConstructor n => getBehaviorConstructor n
  end.

(** The world after a history of top-level calls.  An exception ends the call
    that raised it, not the page: the next call runs in the world left
    behind. *)
Fixpoint run (cs : list call) (w : world) : world :=
  match cs with
  | [] => w
  | c :: rest => run rest (exec c w).2
  end.

(** The constructor last registered as an object type under key [k] by a
    history, if any. *)
Fixpoint registered_object (k : string) (cs : list call) (acc : option value)
  : option value :=
  match cs with
  | [] => acc
  | CallRegisterObject n ctor :: rest =>
      registered_object k rest
        (if decide (toString n = k) then Some ctor else acc)
  | _ :: rest => registered_object k rest acc
  end.

(** What a call does to the scene-loaded callback array. *)
Definition scene_loaded_after (l : list value) (c : call) : list value :=
  match c with
  | CallRegisterCallback SceneLoaded cb => l ++ [cb]
  | CallClearGlobalCallbacks => []
  | _ => l
  end.

(** Calls that are neither a scene-loaded registration nor a reset. *)
Definition other_call (c : call) : bool :=
  match c with
  | CallRegisterCallback SceneLoaded _ => false
  | CallClearGlobalCallbacks => false
  | _ => true
  end.

(** [needle] occurs inside [text]. *)
Definition occurs_in (needle text : string) : Prop :=
  ∃ before after, text = before +:+ needle +:+ after.

(** The messages of the two lookups. *)
Definition object_not_found (name : ident) : string :=
  "Object type " +:+ dquote +:+ toString name +:+ dquote +:+ " was not found.".

Definition behavior_not_found (name : ident) : string :=
  "Behavior type " +:+ dquote +:+ toString name +:+ dquote +:+ " was not found.".

(** A world with one more line printed. *)
Definition printed (d : diagnostic) (w : world) : world :=
  World (gdjs w) (console w) (output w ++ [d]).

(** The constructor last registered as a behavior type under key [k] by a
    history, if any. *)
Fixpoint registered_behavior (k : string) (cs : list call) (acc : option value)
  : option value :=
  match cs with
  | [] => acc
  | CallRegisterBehavior n ctor :: rest =>
      registered_behavior k rest
        (if decide (toString n = k) then Some ctor else acc)
  | _ :: rest => registered_behavior k rest acc
  end.

Global Instance event_eq_dec : EqDecision event.
Proof. solve_decision. Defined.

(** What a call does to the callback array of event [e]. *)
Definition callbacks_after (e : event) (l : list value) (c : call) : list value :=
  match c with
  | CallRegisterCallback e' cb => if decide (e' = e) then l ++ [cb] else l
  | CallClearGlobalCallbacks => []
  | _ => l
  end.

(** The callbacks a history registers for event [e], first registered
    first. *)
Fixpoint registered_callbacks (e : event) (cs : list call) : list value :=
  match cs with
  | [] => []
  | CallRegisterCallback e' cb :: rest =>
      if decide (e' = e) then cb :: registered_callbacks e rest
      else registered_callbacks e rest
  | _ :: rest => registered_callbacks e rest
  end.

Definition is_reset (c : call) : bool :=
  match c with
  | CallClearGlobalCallbacks => true
  | _ => false
  end.

(** ** Colors *)

(** The numbers of the color functions are taken integer-valued, as the
    color components are; on them [+] is exact and [<<] works on the
    32-bit two's complement image of its left operand. *)

(** ToInt32 of an integer-valued number. *)
Definition toInt32 (z : Z) : Z :=
  ((z + 2147483648) mod 4294967296 - 2147483648)%Z.

(** [x << k] *)
Definition shl (x k : Z) : Z := toInt32 (toInt32 x * 2 ^ (k mod 32))%Z.

Definition hex_digit (d : Z) : Ascii.ascii :=
  default Ascii.zero (String.get (Z.to_nat d) "0123456789abcdef").

(** The digits of [n] in base 16, most significant first, in front of
    [acc]; one unit of fuel per digit. *)
Fixpoint toString16_go (fuel : nat) (n : Z) (acc : string) : string :=
  match fuel with
  | O => acc
  | S fuel' =>
      let acc' := String (hex_digit (n mod 16)) acc in
      if (n / 16 =? 0)%Z then acc' else toString16_go fuel' (n / 16)%Z acc'
  end.

(** [n.toString(16)] for an integer [n]. *)
Definition toString16 (n : Z) : string :=
  if (n <? 0)%Z
  then "-" +:+ toString16_go (S (Z.to_nat (Z.log2 (- n)))) (- n)%Z EmptyString
  else toString16_go (S (Z.to_nat (Z.log2 n))) n EmptyString.

(** [s.slice(1)] *)
Definition slice1 (s : string) : string :=
  match s with
  | EmptyString => EmptyString
  | String _ rest => rest
  end.

Definition rgbToHex (r g b : Z) : string :=
  EmptyString +:+ slice1 (toString16 (shl 1 24 + shl r 16 + shl g 8 + b)%Z).

Definition rgbToHexNumber (r g b : Z) : Z :=
  (shl r 16 + shl g 8 + b)%Z.

(** Two hexadecimal digits of a byte, and the value of a string of
    hexadecimal digits. *)
Definition hex2 (x : Z) : string :=
  String (hex_digit (x / 16)) (String (hex_digit (x mod 16)) EmptyString).

Definition hex_digit_value (c : Ascii.ascii) : Z :=
  let n := Z.of_nat (Ascii.nat_of_ascii c) in
  if (n <? 58)%Z then (n - 48)%Z else (n - 87)%Z.

Fixpoint hex_value (s : string) (acc : Z) : Z :=
  match s with
  | EmptyString => acc
  | String c rest => hex_value rest (16 * acc + hex_digit_value c)%Z
  end.

(** ** Random integers *)

Section Random.

(** [draw n] is the value of [Math.floor(Math.random() * n)] for the draw
    of [Math.random()] that the call makes; each function below draws at
    most once.  The arguments are taken integer-valued. *)
Variable draw : Z → Z.

Definition random (max : Z) : Z :=
  if (max <=? 0)%Z then 0%Z else draw (max + 1)%Z.

Definition randomInRange (min max : Z) : Z :=
  (min + random (max - min))%Z.

Definition randomWithStep (min max step : Z) : Z :=
  if (step <=? 0)%Z then (min + random (max - min))%Z
  else (min + random ((max - min) / step) * step)%Z.

End Random.

(** ** Arrays *)

(** [arr[i]], [undefined] out of range. *)
Definition array_get (i : nat) (arr : list value) : value :=
  default Undefined (arr !! i).

(** [arr[i] = x]: an element in range is replaced; at or beyond the length
    the array grows up to [i], the gap reading as [undefined]. *)
Definition array_set (i : nat) (x : value) (arr : list value) : list value :=
  if decide (i < length arr)%nat then <[i := x]> arr
  else arr ++ replicate (i - length arr) Undefined ++ [x].

Inductive array_exn : Type :=
| RangeError (msg : string).

(** [arr.length = len]: a negative length is refused, a shorter one
    truncates, a longer one pads. *)
Definition array_set_length (len : Z) (arr : list value)
  : array_exn + list value :=
  if (len <? 0)%Z then inl (RangeError "Invalid array length")
  else inr (take (Z.to_nat len) arr
            ++ replicate (Z.to_nat len - length arr) Undefined).

(** [for (i = from; i < len; i++) this[i] = this[i + 1]], with [steps]
    iterations left. *)
Fixpoint remove_loop (steps : nat) (i : nat) (this : list value) : list value :=
  match steps with
  | O => this
  | S steps' =>
      remove_loop steps' (S i) (array_set i (array_get (i + 1) this) this)
  end.

(** [Array.prototype.remove], for an index [from] that is a natural
    number. *)
Definition Array_remove (from : nat) (this : list value)
  : array_exn + list value :=
  let len := (Z.of_nat (length this) - 1)%Z in
  let this' := remove_loop (Z.to_nat (len - Z.of_nat from)) from this in
  array_set_length len this'.

(** [for (i = 0; i < len; ++i) this[i] = arr[i]], with [steps] iterations
    left. *)
Fixpoint createFrom_loop (steps : nat) (i : nat) (arr this : list value)
  : list value :=
  match steps with
  | O => this
  | S steps' => createFrom_loop steps' (S i) arr (array_set i (array_get i arr) this)
  end.

(** [Array.prototype.createFrom], [arr] being another array than [this]. *)
Definition Array_createFrom (arr this : list value) : array_exn + list value :=
  let len := length arr in
  array_set_length (Z.of_nat len) (createFrom_loop len 0 arr this).

(** The two loops of [objectsListsToArray], over the arrays that
    [objectsLists.values(lists)] left in [lists]. *)
Fixpoint objectsListsToArray_inner (steps : nat) (k : nat)
    (arr result : list value) : list value :=
  match steps with
  | O => result
  | S steps' =>
      objectsListsToArray_inner steps' (S k) arr (push (array_get k arr) result)
  end.

Fixpoint objectsListsToArray_outer (steps : nat) (i : nat)
    (lists : list (list value)) (result : list value) : list value :=
  match steps with
  | O => result
  | S steps' =>
      let arr := default [] (lists !! i) in
      objectsListsToArray_outer steps' (S i) lists
        (objectsListsToArray_inner (length arr) 0 arr result)
  end.

Definition objectsListsToArray (lists : list (list value)) : list value :=
  objectsListsToArray_outer (length lists) 0 lists [].

(** ** Static arrays and objects *)

(** The objects of the page: the named properties of each object, by
    address, and the elements of those that are arrays. *)
Record store : Type := Store {
  props : gmap nat (gmap string value);
  elems : gmap nat (list value)
}.

(** [o.p], [undefined] when the property is missing. *)
Definition get_prop (o : nat) (p : string) (s : store) : value :=
  default Undefined (props s !! o ≫= λ ps, ps !! p).

(** [o.p = v] *)
Definition set_prop (o : nat) (p : string) (v : value) (s : store) : store :=
  Store (<[o := <[p := v]> (default ∅ (props s !! o))]> (props s)) (elems s).

(** An address that no object of the store has. *)
Definition fresh_address (s : store) : nat :=
  fresh (dom (props s) ∪ dom (elems s)).

(** [[]] *)
Definition new_array (s : store) : value * store :=
  let a := fresh_address s in
  (Ref a, Store (<[a := ∅]> (props s)) (<[a := []]> (elems s))).

(** [{}] *)
Definition new_object (s : store) : value * store :=
  let a := fresh_address s in
  (Ref a, Store (<[a := ∅]> (props s)) (elems s)).

(** [x || y], where [y] is evaluated only when [x] is falsy. *)
Definition or_else (x : value) (y : store → value * store) (s : store)
  : value * store :=
  match x with
  | Undefined => y s
  | Ref _ => (x, s)
  end.

Definition staticArray (owner : nat) (s : store) : value * store :=
  let '(v, s1) := or_else (get_prop owner "_staticArray" s) new_array s in
  let s2 := set_prop owner "_staticArray" v s1 in
  (get_prop owner "_staticArray" s2, s2).

Definition staticArray2 (owner : nat) (s : store) : value * store :=
  let '(v, s1) := or_else (get_prop owner "_staticArray2" s) new_array s in
  let s2 := set_prop owner "_staticArray2" v s1 in
  (get_prop owner "_staticArray2" s2, s2).

Definition staticObject (owner : nat) (s : store) : value * store :=
  let '(v, s1) := or_else (get_prop owner "_staticObject" s) new_object s in
  let s2 := set_prop owner "_staticObject" v s1 in
  (get_prop owner "_staticObject" s2, s2).

(** * Properties *)

Ltac run_M :=
  simpl;
  unfold registerCallback, registerObject, registerBehavior,
    registerRuntimeSceneLoadedCallback, registerRuntimeSceneUnloadedCallback,
    registerRuntimeScenePausedCallback, registerRuntimeSceneResumedCallback,
    registerObjectDeletedFromSceneCallback, clearGlobalCallbacks,
    registerGlobalCallbacks, getObjectConstructor, getBehaviorConstructor,
    console_call, update, read, printed, mbind, M_bind, mret, M_ret;
  simpl.

(** ** Hashtable laws *)

Lemma containsKey_put k v h :
  Hashtable.containsKey k (Hashtable.put k v h) = true.
Proof.
  unfold Hashtable.containsKey, Hashtable.put.
  apply bool_decide_eq_true. rewrite lookup_insert_eq. by eexists.
Qed.

Lemma get_put k v h : Hashtable.get k (Hashtable.put k v h) = v.
Proof.
  unfold Hashtable.get, Hashtable.put. by rewrite lookup_insert_eq.
Qed.

Lemma containsKey_false k (h : Hashtable.t) :
  Hashtable.containsKey k h = false ↔ h !! toString k = None.
Proof.
  unfold Hashtable.containsKey.
  rewrite bool_decide_eq_false, <- eq_None_not_Some. done.
Qed.

Lemma get_Some k (h : Hashtable.t) v :
  h !! toString k = Some v → Hashtable.get k h = v.
Proof. unfold Hashtable.get. by intros ->. Qed.

(** ** The lookups, case by case *)

Lemma getObjectConstructor_hit s w :
  Hashtable.containsKey (IString s) (objectsTypes (gdjs w)) = true →
  getObjectConstructor (IString s) w
  = (Normal (Hashtable.get (IString s) (objectsTypes (gdjs w))), w).
Proof. intros H. run_M. by rewrite H. Qed.

Lemma getObjectConstructor_miss name w lvl :
  is_defined name && Hashtable.containsKey name (objectsTypes (gdjs w)) = false →
  console w !! "warn" = Some lvl →
  getObjectConstructor name w
  = (Normal (Hashtable.get (IString EmptyString) (objectsTypes (gdjs w))),
     printed (Diag lvl (object_not_found name)) w).
Proof. intros H Hc. run_M. by rewrite H, Hc. Qed.

Lemma getBehaviorConstructor_hit s w :
  Hashtable.containsKey (IString s) (behaviorsTypes (gdjs w)) = true →
  getBehaviorConstructor (IString s) w
  = (Normal (Hashtable.get (IString s) (behaviorsTypes (gdjs w))), w).
Proof. intros H. run_M. by rewrite H. Qed.

Lemma getBehaviorConstructor_miss name w lvl :
  is_defined name && Hashtable.containsKey name (behaviorsTypes (gdjs w)) = false →
  console w !! "warn" = Some lvl →
  getBehaviorConstructor name w
  = (Normal (Hashtable.get (IString EmptyString) (behaviorsTypes (gdjs w))),
     printed (Diag lvl (behavior_not_found name)) w).
Proof. intros H Hc. run_M. by rewrite H, Hc. Qed.

(** The result of a lookup depends on the world through its registry and its
    console only. *)
Lemma getObjectConstructor_cong name w1 w2 :
  objectsTypes (gdjs w1) = objectsTypes (gdjs w2) →
  console w1 = console w2 →
  (getObjectConstructor name w1).1 = (getObjectConstructor name w2).1.
Proof.
  intros Ho Hc. run_M. rewrite Ho.
  destruct (is_defined name && _); [done|].
  rewrite Hc. destruct (console w2 !! "warn"); simpl; [by rewrite Ho | done].
Qed.

Lemma getBehaviorConstructor_cong name w1 w2 :
  behaviorsTypes (gdjs w1) = behaviorsTypes (gdjs w2) →
  console w1 = console w2 →
  (getBehaviorConstructor name w1).1 = (getBehaviorConstructor name w2).1.
Proof.
  intros Ho Hc. run_M. rewrite Ho.
  destruct (is_defined name && _); [done|].
  rewrite Hc. destruct (console w2 !! "warn"); simpl; [by rewrite Ho | done].
Qed.

(** ** Histories *)

Lemma exec_console c w : console (exec c w).2 = console w.
Proof.
  destruct c as [n v|n v|e v| | |n|n]; try destruct e; run_M; try done.
  - destruct (console w !! "warning"); simpl; done.
  - destruct (is_defined n && _); [done|].
    destruct (console w !! "warn"); simpl; done.
  - destruct (is_defined n && _); [done|].
    destruct (console w !! "warn"); simpl; done.
Qed.

Lemma run_console cs w : console (run cs w) = console w.
Proof.
  revert w. induction cs as [|c cs IH]; intros w; simpl; [done|].
  by rewrite IH, exec_console.
Qed.

Lemma exec_objectsTypes c w :
  objectsTypes (gdjs (exec c w).2)
  = match c with
    | CallRegisterObject n ctor => Hashtable.put n ctor (objectsTypes (gdjs w))
    | _ => objectsTypes (gdjs w)
    end.
Proof.
  destruct c as [n v|n v|e v| | |n|n]; try destruct e; run_M; try done.
  - destruct (console w !! "warning"); simpl; done.
  - destruct (is_defined n && _); [done|].
    destruct (console w !! "warn"); simpl; done.
  - destruct (is_defined n && _); [done|].
    destruct (console w !! "warn"); simpl; done.
Qed.

Lemma run_objectsTypes k cs w :
  objectsTypes (gdjs (run cs w)) !! k
  = registered_object k cs (objectsTypes (gdjs w) !! k).
Proof.
  revert w. induction cs as [|c cs IH]; intros w; simpl; [done|].
  rewrite IH, exec_objectsTypes.
  destruct c; try done.
  unfold Hashtable.put. rewrite lookup_insert.
  by destruct (decide (toString objectTypeName = k)).
Qed.

Lemma load_objectsTypes host k : objectsTypes (gdjs (load host)) !! k = None.
Proof. apply lookup_empty. Qed.

Lemma or_log_other m m' (c : gmap string level) :
  m ≠ m' → or_log m c !! m' = c !! m'.
Proof.
  intros Hne. unfold or_log.
  destruct (c !! m); [|destruct (c !! "log")];
    by rewrite ?lookup_insert_ne.
Qed.

(** After the load [console.warn] is the host's, or the host's
    [console.log] when the host has none. *)
Lemma load_warn_native (host : gmap string level) lvl :
  host !! "warn" = Some lvl → console (load host) !! "warn" = Some lvl.
Proof.
  intros H. simpl. rewrite or_log_other by done.
  unfold or_log. rewrite H. by rewrite lookup_insert_eq.
Qed.

Lemma load_warn_from_log (host : gmap string level) lvl :
  host !! "warn" = None → host !! "log" = Some lvl →
  console (load host) !! "warn" = Some lvl.
Proof.
  intros H Hl. simpl. rewrite or_log_other by done.
  unfold or_log. rewrite H, Hl. by rewrite lookup_insert_eq.
Qed.

Lemma occurs_in_object_not_found name :
  occurs_in (toString name) (object_not_found name).
Proof.
  exists ("Object type " +:+ dquote), (dquote +:+ " was not found.").
  reflexivity.
Qed.

(** ** Registration and lookup of object types *)

(** C1: after [registerObject(id, ctor)] the lookup [getObjectConstructor(id)]
    returns [ctor] and changes nothing; when [id] is registered twice the
    second constructor is the one returned, and the second registration
    returns normally and prints nothing. *)
Theorem registerObject_then_getObjectConstructor
  (id : string) (ctor ctor1 ctor2 : value) (w : world) :
  (let w1 := (registerObject (IString id) ctor w).2 in
   getObjectConstructor (IString id) w1 = (Normal ctor, w1))
  ∧
  (let w1 := (registerObject (IString id) ctor1 w).2 in
   let w2 := (registerObject (IString id) ctor2 w1).2 in
   getObjectConstructor (IString id) w2 = (Normal ctor2, w2)
   ∧ (registerObject (IString id) ctor2 w1).1 = Normal Undefined
   ∧ output w2 = output w1).
Proof.
  split; [|split; [|done]]; simpl.
  - rewrite getObjectConstructor_hit by apply containsKey_put.
    simpl. by rewrite get_put.
  - rewrite getObjectConstructor_hit by apply containsKey_put.
    simpl. by rewrite get_put.
Qed.

(** C2: in a world reached from the load of the file by any history of
    calls that never registered [id] as an object type and that registered
    the empty identifier (last with [fallback]), [getObjectConstructor(id)]
    completes normally with [fallback], which is what the lookup of the
    empty identifier returns, and prints exactly one line, through
    [console.warn], whose text contains [id]. *)
Theorem getObjectConstructor_never_registered
  (host : gmap string level) (cs : list call) (id : string)
  (fallback : value) (lvl : level) :
  let w := run cs (load host) in
  registered_object id cs None = None →
  registered_object EmptyString cs None = Some fallback →
  console (load host) !! "warn" = Some lvl →
  getObjectConstructor (IString id) w
  = (Normal fallback, printed (Diag lvl (object_not_found (IString id))) w)
  ∧ getObjectConstructor (IString EmptyString) w = (Normal fallback, w)
  ∧ output (getObjectConstructor (IString id) w).2
    = output w ++ [Diag lvl (object_not_found (IString id))]
  ∧ occurs_in id (object_not_found (IString id)).
Proof.
  intros w Hid Hempty Hwarn.
  assert (Hnone : objectsTypes (gdjs w) !! id = None).
  { unfold w. by rewrite run_objectsTypes, load_objectsTypes. }
  assert (Hsome : objectsTypes (gdjs w) !! EmptyString = Some fallback).
  { unfold w. by rewrite run_objectsTypes, load_objectsTypes. }
  assert (Hc : console w !! "warn" = Some lvl).
  { unfold w. by rewrite run_console. }
  assert (Hmiss : getObjectConstructor (IString id) w
    = (Normal fallback, printed (Diag lvl (object_not_found (IString id))) w)).
  { rewrite (getObjectConstructor_miss _ _ lvl); [|simpl|done].
    - by rewrite (get_Some (IString EmptyString) _ fallback).
    - by apply (containsKey_false (IString id)). }
  split; [done|]. split; [|split].
  - rewrite getObjectConstructor_hit.
    + by rewrite (get_Some (IString EmptyString) _ fallback).
    + unfold Hashtable.containsKey. apply bool_decide_eq_true.
      simpl. rewrite Hsome. by eexists.
  - by rewrite Hmiss.
  - apply (occurs_in_object_not_found (IString id)).
Qed.

(** The scenario of the documentation: ["TextObject::Text"] and the empty
    identifier are registered, ["Sprite::Unknown"] is looked up. *)
Lemma getObjectConstructor_never_registered_witness :
  let cs := [CallRegisterObject (IString "TextObject::Text") (Ref 1);
             CallRegisterObject (IString EmptyString) (Ref 0)] in
  let w := run cs (load standard_console) in
  getObjectConstructor (IString "Sprite::Unknown") w
  = (Normal (Ref 0),
     printed (Diag Warn (object_not_found (IString "Sprite::Unknown"))) w)
  ∧ getObjectConstructor (IString EmptyString) w = (Normal (Ref 0), w)
  ∧ output (getObjectConstructor (IString "Sprite::Unknown") w).2
    = output w ++ [Diag Warn (object_not_found (IString "Sprite::Unknown"))]
  ∧ occurs_in "Sprite::Unknown" (object_not_found (IString "Sprite::Unknown")).
Proof.
  apply (getObjectConstructor_never_registered standard_console
           [CallRegisterObject (IString "TextObject::Text") (Ref 1);
            CallRegisterObject (IString EmptyString) (Ref 0)]
           "Sprite::Unknown" (Ref 0) Warn);
    vm_compute; reflexivity.
Defined.

(** The other half of the scenario: the registered type is found, silently. *)
Example getObjectConstructor_text_object :
  let w := run [CallRegisterObject (IString "TextObject::Text") (Ref 1);
                CallRegisterObject (IString EmptyString) (Ref 0)]
               (load standard_console) in
  getObjectConstructor (IString "TextObject::Text") w = (Normal (Ref 1), w).
Proof. reflexivity. Qed.

(** C3: [registerObject] changes the object registry only.  The behavior
    registry, the five callback arrays, [evtTools], the console and the
    printed text are left as they were; a behavior lookup gives the same
    result after the registration as before it; and an identifier absent
    from the behavior registry is still reported as not found, with the
    empty-identifier behavior returned, after it is registered as an
    object type. *)
Theorem registerObject_frame (id : ident) (ctor : value) (w : world) :
  let w' := (registerObject id ctor w).2 in
  behaviorsTypes (gdjs w') = behaviorsTypes (gdjs w)
  ∧ (∀ e, callbacks e (gdjs w') = callbacks e (gdjs w))
  ∧ evtTools (gdjs w') = evtTools (gdjs w)
  ∧ console w' = console w
  ∧ output w' = output w
  ∧ (∀ name, (getBehaviorConstructor name w').1
             = (getBehaviorConstructor name w).1)
  ∧ (∀ lvl,
       Hashtable.containsKey id (behaviorsTypes (gdjs w)) = false →
       console w !! "warn" = Some lvl →
       getBehaviorConstructor id w'
       = (Normal (Hashtable.get (IString EmptyString) (behaviorsTypes (gdjs w))),
          printed (Diag lvl (behavior_not_found id)) w')).
Proof.
  intros w'.
  split; [done|]. split; [by intros []|]. do 3 (split; [done|]). split.
  - intros name. by apply getBehaviorConstructor_cong.
  - intros lvl Hk Hc.
    rewrite (getBehaviorConstructor_miss _ _ lvl); [done| |done].
    simpl. rewrite Hk. apply andb_false_r.
Qed.

(** ["Foo"] registered as an object type only: the behavior lookup of
    ["Foo"] misses. *)
Lemma registerObject_frame_witness :
  let w := load standard_console in
  let w' := (registerObject (IString "Foo") (Ref 1) w).2 in
  getBehaviorConstructor (IString "Foo") w'
  = (Normal Undefined,
     printed (Diag Warn (behavior_not_found (IString "Foo"))) w').
Proof.
  intros w w'.
  destruct (registerObject_frame (IString "Foo") (Ref 1) w)
    as (_ & _ & _ & _ & _ & _ & H).
  apply (H Warn); vm_compute; reflexivity.
Defined.

(** ** Callback arrays *)

Lemma invoke_all_spec cbs invoked : invoke_all cbs invoked = invoked ++ cbs.
Proof.
  revert invoked. induction cbs as [|cb cbs IH]; intros invoked; simpl.
  - by rewrite app_nil_r.
  - by rewrite IH, <- app_assoc.
Qed.

Lemma dispatch_spec e w : dispatch e w = callbacks e (gdjs w).
Proof. unfold dispatch. by rewrite invoke_all_spec. Qed.

Lemma registerCallback_spec e cb w :
  (registerCallback e cb w).1 = Normal Undefined
  ∧ callbacks e (gdjs (registerCallback e cb w).2) = callbacks e (gdjs w) ++ [cb]
  ∧ (∀ e', e' ≠ e →
       callbacks e' (gdjs (registerCallback e cb w).2) = callbacks e' (gdjs w)).
Proof.
  destruct e; (split; [done|split; [done|]]); by intros [] ?.
Qed.

Lemma exec_scene_loaded c w :
  callbacksRuntimeSceneLoaded (gdjs (exec c w).2)
  = scene_loaded_after (callbacksRuntimeSceneLoaded (gdjs w)) c.
Proof.
  destruct c as [n v|n v|e v| | |n|n]; try destruct e; run_M; try done.
  - destruct (console w !! "warning"); simpl; done.
  - destruct (is_defined n && _); [done|].
    destruct (console w !! "warn"); simpl; done.
  - destruct (is_defined n && _); [done|].
    destruct (console w !! "warn"); simpl; done.
Qed.

Lemma run_scene_loaded cs w :
  callbacksRuntimeSceneLoaded (gdjs (run cs w))
  = foldl scene_loaded_after (callbacksRuntimeSceneLoaded (gdjs w)) cs.
Proof.
  revert w. induction cs as [|c cs IH]; intros w; simpl; [done|].
  by rewrite IH, exec_scene_loaded.
Qed.

Lemma foldl_other_calls cs l :
  forallb other_call cs = true → foldl scene_loaded_after l cs = l.
Proof.
  induction cs as [|c cs IH]; simpl; [done|].
  intros [Hc Hcs]%andb_true_iff. rewrite <- (IH Hcs) at 2. f_equal.
  destruct c as [| |[]| | | |]; done.
Qed.

(** C4: whatever calls other than scene-loaded registrations and resets come
    before, between and after them, three callbacks registered with
    [registerRuntimeSceneLoadedCallback] in the order [c1], [c2], [c3] make
    the scene-loaded array [[c1; c2; c3]], and a dispatch of the scene-loaded
    event invokes them in that order. *)
Theorem scene_loaded_registration_order
  (w0 : world) (c1 c2 c3 : value) (o0 o1 o2 o3 : list call) :
  callbacksRuntimeSceneLoaded (gdjs w0) = [] →
  forallb other_call o0 = true → forallb other_call o1 = true →
  forallb other_call o2 = true → forallb other_call o3 = true →
  let w := run (o0 ++ CallRegisterCallback SceneLoaded c1 ::
                o1 ++ CallRegisterCallback SceneLoaded c2 ::
                o2 ++ CallRegisterCallback SceneLoaded c3 :: o3) w0 in
  callbacksRuntimeSceneLoaded (gdjs w) = [c1; c2; c3]
  ∧ dispatch SceneLoaded w = [c1; c2; c3].
Proof.
  intros H0 Ho0 Ho1 Ho2 Ho3 w.
  assert (H : callbacksRuntimeSceneLoaded (gdjs w) = [c1; c2; c3]).
  { unfold w. rewrite run_scene_loaded, H0.
    rewrite foldl_app, (foldl_other_calls o0) by done. simpl.
    rewrite foldl_app, (foldl_other_calls o1) by done. simpl.
    rewrite foldl_app, (foldl_other_calls o2) by done. simpl.
    by rewrite (foldl_other_calls o3). }
  split; [done|]. by rewrite dispatch_spec.
Qed.

Lemma scene_loaded_registration_order_witness :
  let w := run [CallRegisterCallback SceneUnloaded (Ref 9);
                CallRegisterCallback SceneLoaded (Ref 1);
                CallRegisterObject (IString "Foo") (Ref 5);
                CallRegisterCallback ScenePaused (Ref 2);
                CallRegisterCallback SceneLoaded (Ref 2);
                CallRegisterCallback SceneLoaded (Ref 3);
                CallRegisterCallback ObjectDeletedFromScene (Ref 1);
                CallRegisterCallback SceneResumed (Ref 3)]
               (load standard_console) in
  callbacksRuntimeSceneLoaded (gdjs w) = [Ref 1; Ref 2; Ref 3]
  ∧ dispatch SceneLoaded w = [Ref 1; Ref 2; Ref 3].
Proof.
  apply (scene_loaded_registration_order (load standard_console)
           (Ref 1) (Ref 2) (Ref 3)
           [CallRegisterCallback SceneUnloaded (Ref 9)]
           [CallRegisterObject (IString "Foo") (Ref 5);
            CallRegisterCallback ScenePaused (Ref 2)]
           []
           [CallRegisterCallback ObjectDeletedFromScene (Ref 1);
            CallRegisterCallback SceneResumed (Ref 3)]);
    reflexivity.
Defined.

(** C5: after [clearGlobalCallbacks()] each of the five callback arrays is
    empty, and a dispatch of any of the five events invokes no callback. *)
Theorem clearGlobalCallbacks_empties (w : world) (e : event) :
  let w' := (clearGlobalCallbacks w).2 in
  (clearGlobalCallbacks w).1 = Normal Undefined
  ∧ callbacks e (gdjs w') = []
  ∧ dispatch e w' = [].
Proof. by destruct e. Qed.

(** C6: for each of the five events, registering the same callback twice
    appends it twice to the array of the event, and a dispatch of the event
    then invokes it two times more than before. *)
Theorem registerCallback_no_deduplication (e : event) (c : value) (w : world) :
  let w2 := (registerCallback e c (registerCallback e c w).2).2 in
  callbacks e (gdjs w2) = callbacks e (gdjs w) ++ [c; c]
  ∧ dispatch e w2 = dispatch e w ++ [c; c]
  ∧ count_occ value_eq_dec (dispatch e w2) c
    = count_occ value_eq_dec (dispatch e w) c + 2.
Proof.
  intros w2.
  assert (H : callbacks e (gdjs w2) = callbacks e (gdjs w) ++ [c; c]).
  { unfold w2.
    destruct (registerCallback_spec e c (registerCallback e c w).2) as (_ & -> & _).
    destruct (registerCallback_spec e c w) as (_ & -> & _).
    by rewrite <- app_assoc. }
  split; [done|]. rewrite !dispatch_spec, H. split; [done|].
  rewrite count_occ_app. simpl. destruct (value_eq_dec c c); [lia|done].
Qed.

(** ** The deprecated registration function *)

(** [registerGlobalCallbacks] calls [console.warning].  In a console without
    that method the call throws before anything is printed. *)
Lemma registerGlobalCallbacks_without_warning w :
  console w !! "warning" = None →
  registerGlobalCallbacks w
  = (Throw (TypeError "console.warning is not a function"), w).
Proof. intros H. run_M. by rewrite H. Qed.

(** The load of the file only makes sure of [console.warn] and
    [console.error]: a host without [console.warning] stays without it,
    whatever is called afterwards. *)
Lemma run_load_without_warning (host : gmap string level) cs :
  host !! "warning" = None →
  console (run cs (load host)) !! "warning" = None.
Proof.
  intros H. rewrite run_console. simpl. by rewrite !or_log_other.
Qed.

(** Had the function called [console.warn], as the two lookups do, it would
    print its message and return. *)
Lemma console_warn_prints msg w lvl :
  console w !! "warn" = Some lvl →
  (console_call "warn" msg;; mret Undefined) w
  = (Normal Undefined, printed (Diag lvl msg) w).
Proof. intros H. run_M. by rewrite H. Qed.

(** C7: in a page with the standard console, [registerGlobalCallbacks()]
    completes abruptly with a TypeError and prints nothing, where a warning
    and a normal return are expected. *)
Theorem registerGlobalCallbacks_throws :
  let w := load standard_console in
  registerGlobalCallbacks w
  = (Throw (TypeError "console.warning is not a function"), w)
  ∧ output (registerGlobalCallbacks w).2 = [].
Proof.
  intros w.
  rewrite registerGlobalCallbacks_without_warning; [done|].
  apply (run_load_without_warning standard_console []). reflexivity.
Qed.

(** ** Registrations and reset never fail *)

(** C8: for every identifier (a string or [undefined]), every constructor
    and every callback (any value, [undefined] included), [registerObject],
    [registerBehavior], the five callback registrations and
    [clearGlobalCallbacks] complete normally, print nothing, and store their
    argument as it is. *)
Theorem registrations_and_reset_infallible
  (name : ident) (v : value) (e : event) (w : world) :
  ((registerObject name v w).1 = Normal Undefined
   ∧ objectsTypes (gdjs (registerObject name v w).2) !! toString name = Some v
   ∧ output (registerObject name v w).2 = output w)
  ∧ ((registerBehavior name v w).1 = Normal Undefined
     ∧ behaviorsTypes (gdjs (registerBehavior name v w).2) !! toString name = Some v
     ∧ output (registerBehavior name v w).2 = output w)
  ∧ ((registerRuntimeSceneLoadedCallback v w).1 = Normal Undefined
     ∧ (registerRuntimeSceneUnloadedCallback v w).1 = Normal Undefined
     ∧ (registerRuntimeScenePausedCallback v w).1 = Normal Undefined
     ∧ (registerRuntimeSceneResumedCallback v w).1 = Normal Undefined
     ∧ (registerObjectDeletedFromSceneCallback v w).1 = Normal Undefined)
  ∧ ((registerCallback e v w).1 = Normal Undefined
     ∧ callbacks e (gdjs (registerCallback e v w).2) = callbacks e (gdjs w) ++ [v]
     ∧ output (registerCallback e v w).2 = output w)
  ∧ ((clearGlobalCallbacks w).1 = Normal Undefined
     ∧ output (clearGlobalCallbacks w).2 = output w).
Proof.
  split; [|split; [|split; [|split]]].
  - split; [done|]. split; [|done]. simpl. apply lookup_insert_eq.
  - split; [done|]. split; [|done]. simpl. apply lookup_insert_eq.
  - done.
  - by destruct e.
  - done.
Qed.

(** ** Lookups of [undefined] *)

(** C9: with [undefined] for identifier both lookups skip the membership
    test, whatever the registry holds: they print the not-found warning and
    return the entry of the empty identifier. *)
Theorem lookup_of_undefined (w : world) (lvl : level) :
  console w !! "warn" = Some lvl →
  getObjectConstructor IUndefined w
  = (Normal (Hashtable.get (IString EmptyString) (objectsTypes (gdjs w))),
     printed (Diag lvl (object_not_found IUndefined)) w)
  ∧ getBehaviorConstructor IUndefined w
    = (Normal (Hashtable.get (IString EmptyString) (behaviorsTypes (gdjs w))),
       printed (Diag lvl (behavior_not_found IUndefined)) w).
Proof.
  intros Hc. split.
  - by apply getObjectConstructor_miss.
  - by apply getBehaviorConstructor_miss.
Qed.

(** A world where an entry is stored under the key of [undefined] in both
    registries: the lookups of [undefined] do not return it. *)
Lemma lookup_of_undefined_witness :
  let w := run [CallRegisterObject (IString EmptyString) (Ref 0);
                CallRegisterObject IUndefined (Ref 7);
                CallRegisterBehavior (IString EmptyString) (Ref 10);
                CallRegisterBehavior IUndefined (Ref 17)]
               (load standard_console) in
  (Hashtable.containsKey IUndefined (objectsTypes (gdjs w)) = true
   ∧ Hashtable.get IUndefined (objectsTypes (gdjs w)) = Ref 7
   ∧ Hashtable.containsKey IUndefined (behaviorsTypes (gdjs w)) = true
   ∧ Hashtable.get IUndefined (behaviorsTypes (gdjs w)) = Ref 17)
  ∧ getObjectConstructor IUndefined w
    = (Normal (Ref 0), printed (Diag Warn (object_not_found IUndefined)) w)
  ∧ getBehaviorConstructor IUndefined w
    = (Normal (Ref 10), printed (Diag Warn (behavior_not_found IUndefined)) w).
Proof.
  intros w. split; [by vm_compute|].
  apply (lookup_of_undefined w Warn). vm_compute. reflexivity.
Defined.

(** ** Reset and the registries *)

(** C10: [clearGlobalCallbacks] leaves both registries as they were (and
    [evtTools], the console and the printed text), so that both lookups
    return the same constructor before and after it, for every
    identifier. *)
Theorem clearGlobalCallbacks_frame (name : ident) (w : world) :
  let w' := (clearGlobalCallbacks w).2 in
  objectsTypes (gdjs w') = objectsTypes (gdjs w)
  ∧ behaviorsTypes (gdjs w') = behaviorsTypes (gdjs w)
  ∧ evtTools (gdjs w') = evtTools (gdjs w)
  ∧ console w' = console w
  ∧ output w' = output w
  ∧ (getObjectConstructor name w').1 = (getObjectConstructor name w).1
  ∧ (getBehaviorConstructor name w').1 = (getBehaviorConstructor name w).1.
Proof.
  intros w'. do 5 (split; [done|]). split.
  - by apply getObjectConstructor_cong.
  - by apply getBehaviorConstructor_cong.
Qed.

(** * Further properties of the registries and of the callback arrays *)

Ltac exec_cases c w :=
  let n := fresh "n" in
  let e := fresh "e" in
  destruct c as [n ?|n ?|e ?| | |n|n]; try destruct e; run_M; try done;
  [ destruct (console w !! "warning"); simpl; done
  | destruct (is_defined n && _); [done|];
    destruct (console w !! "warn"); simpl; done
  | destruct (is_defined n && _); [done|];
    destruct (console w !! "warn"); simpl; done ].

Lemma exec_behaviorsTypes c w :
  behaviorsTypes (gdjs (exec c w).2)
  = match c with
    | CallRegisterBehavior n ctor => Hashtable.put n ctor (behaviorsTypes (gdjs w))
    | _ => behaviorsTypes (gdjs w)
    end.
Proof. exec_cases c w. Qed.

Lemma run_behaviorsTypes k cs w :
  behaviorsTypes (gdjs (run cs w)) !! k
  = registered_behavior k cs (behaviorsTypes (gdjs w) !! k).
Proof.
  revert w. induction cs as [|c cs IH]; intros w; simpl; [done|].
  rewrite IH, exec_behaviorsTypes.
  destruct c; try done.
  unfold Hashtable.put. rewrite lookup_insert.
  by destruct (decide (toString behaviorTypeName = k)).
Qed.

Lemma containsKey_true k (h : Hashtable.t) v :
  h !! toString k = Some v → Hashtable.containsKey k h = true.
Proof.
  intros H. unfold Hashtable.containsKey. apply bool_decide_eq_true.
  rewrite H. by eexists.
Qed.

Lemma occurs_in_behavior_not_found name :
  occurs_in (toString name) (behavior_not_found name).
Proof.
  exists ("Behavior type " +:+ dquote), (dquote +:+ " was not found.").
  reflexivity.
Qed.

(** X1: after [registerBehavior(id, ctor)] the lookup
    [getBehaviorConstructor(id)] returns [ctor] and changes nothing; when
    [id] is registered twice the second constructor is returned. *)
Theorem registerBehavior_then_getBehaviorConstructor
  (id : string) (ctor ctor1 ctor2 : value) (w : world) :
  (let w1 := (registerBehavior (IString id) ctor w).2 in
   getBehaviorConstructor (IString id) w1 = (Normal ctor, w1))
  ∧
  (let w1 := (registerBehavior (IString id) ctor1 w).2 in
   let w2 := (registerBehavior (IString id) ctor2 w1).2 in
   getBehaviorConstructor (IString id) w2 = (Normal ctor2, w2)
   ∧ output w2 = output w).
Proof.
  split; [|split; [|done]]; simpl.
  - rewrite getBehaviorConstructor_hit by apply containsKey_put.
    simpl. by rewrite get_put.
  - rewrite getBehaviorConstructor_hit by apply containsKey_put.
    simpl. by rewrite get_put.
Qed.

(** X2: in a world reached from the load of the file by a history that never
    registered [id] as a behavior type and registered the empty identifier
    as one (last with [fallback]), [getBehaviorConstructor(id)] returns
    [fallback] normally and prints exactly one line, through
    [console.warn], whose text contains [id]. *)
Theorem getBehaviorConstructor_never_registered
  (host : gmap string level) (cs : list call) (id : string)
  (fallback : value) (lvl : level) :
  let w := run cs (load host) in
  registered_behavior id cs None = None →
  registered_behavior EmptyString cs None = Some fallback →
  console (load host) !! "warn" = Some lvl →
  getBehaviorConstructor (IString id) w
  = (Normal fallback, printed (Diag lvl (behavior_not_found (IString id))) w)
  ∧ occurs_in id (behavior_not_found (IString id)).
Proof.
  intros w Hid Hempty Hwarn.
  assert (Hnone : behaviorsTypes (gdjs w) !! id = None).
  { unfold w. by rewrite run_behaviorsTypes. }
  assert (Hsome : behaviorsTypes (gdjs w) !! EmptyString = Some fallback).
  { unfold w. by rewrite run_behaviorsTypes. }
  assert (Hc : console w !! "warn" = Some lvl).
  { unfold w. by rewrite run_console. }
  split; [|apply (occurs_in_behavior_not_found (IString id))].
  rewrite (getBehaviorConstructor_miss _ _ lvl); [|simpl|done].
  - by rewrite (get_Some (IString EmptyString) _ fallback).
  - by apply (containsKey_false (IString id)).
Qed.

Lemma getBehaviorConstructor_never_registered_witness :
  let cs := [CallRegisterBehavior (IString "DraggableBehavior::Draggable") (Ref 1);
             CallRegisterObject (IString "Gone::Behavior") (Ref 2);
             CallRegisterBehavior (IString EmptyString) (Ref 0)] in
  let w := run cs (load standard_console) in
  getBehaviorConstructor (IString "Gone::Behavior") w
  = (Normal (Ref 0),
     printed (Diag Warn (behavior_not_found (IString "Gone::Behavior"))) w)
  ∧ occurs_in "Gone::Behavior" (behavior_not_found (IString "Gone::Behavior")).
Proof.
  apply (getBehaviorConstructor_never_registered standard_console
           [CallRegisterBehavior (IString "DraggableBehavior::Draggable") (Ref 1);
            CallRegisterObject (IString "Gone::Behavior") (Ref 2);
            CallRegisterBehavior (IString EmptyString) (Ref 0)]
           "Gone::Behavior" (Ref 0) Warn);
    vm_compute; reflexivity.
Defined.

(** X3: [registerBehavior] changes the behavior registry only: the object
    registry, the five callback arrays, [evtTools], the console and the
    printed text are as before, and every object lookup gives the same
    result as before. *)
Theorem registerBehavior_frame (id name : ident) (ctor : value) (w : world) :
  let w' := (registerBehavior id ctor w).2 in
  objectsTypes (gdjs w') = objectsTypes (gdjs w)
  ∧ (∀ e, callbacks e (gdjs w') = callbacks e (gdjs w))
  ∧ evtTools (gdjs w') = evtTools (gdjs w)
  ∧ console w' = console w
  ∧ output w' = output w
  ∧ (getObjectConstructor name w').1 = (getObjectConstructor name w).1.
Proof.
  intros w'.
  split; [done|]. split; [by intros []|]. do 3 (split; [done|]).
  by apply getObjectConstructor_cong.
Qed.

(** X4: the last registration wins through any history.  When the last
    [registerObject] of a history under [id] gave [ctor], the lookup of
    [id] after the history returns [ctor] and prints nothing, whatever was
    called in between; likewise for behaviors. *)
Theorem last_registration_wins
  (w : world) (cs : list call) (id : string) (ctor bctor : value) :
  (registered_object id cs None = Some ctor →
   getObjectConstructor (IString id) (run cs w) = (Normal ctor, run cs w))
  ∧
  (registered_behavior id cs None = Some bctor →
   getBehaviorConstructor (IString id) (run cs w) = (Normal bctor, run cs w)).
Proof.
  assert (Hobj : ∀ cs acc v, registered_object id cs None = Some v →
                 registered_object id cs acc = Some v).
  { clear. induction cs as [|c cs IH]; intros acc v; simpl; [done|].
    destruct c; try apply IH.
    destruct (decide (toString objectTypeName = id)); [done|apply IH]. }
  assert (Hbeh : ∀ cs acc v, registered_behavior id cs None = Some v →
                 registered_behavior id cs acc = Some v).
  { clear. induction cs as [|c cs IH]; intros acc v; simpl; [done|].
    destruct c; try apply IH.
    destruct (decide (toString behaviorTypeName = id)); [done|apply IH]. }
  split; [intros Ho|intros Hb].
  - pose proof (run_objectsTypes id cs w) as H.
    rewrite (Hobj _ _ _ Ho) in H.
    rewrite getObjectConstructor_hit by by apply (containsKey_true (IString id) _ ctor).
    by rewrite (get_Some (IString id) _ ctor).
  - pose proof (run_behaviorsTypes id cs w) as H.
    rewrite (Hbeh _ _ _ Hb) in H.
    rewrite getBehaviorConstructor_hit by by apply (containsKey_true (IString id) _ bctor).
    by rewrite (get_Some (IString id) _ bctor).
Qed.

Lemma last_registration_wins_witness :
  let cs := [CallRegisterObject (IString "Foo") (Ref 1);
             CallRegisterBehavior (IString "Foo") (Ref 2);
             CallClearGlobalCallbacks;
             CallGetObjectConstructor (IString "Bar");
             CallRegisterObject (IString "Foo") (Ref 3);
             CallRegisterGlobalCallbacks] in
  let w := load standard_console in
  getObjectConstructor (IString "Foo") (run cs w) = (Normal (Ref 3), run cs w)
  ∧ getBehaviorConstructor (IString "Foo") (run cs w) = (Normal (Ref 2), run cs w).
Proof.
  intros cs w.
  destruct (last_registration_wins w cs "Foo" (Ref 3) (Ref 2)) as [Ho Hb].
  split; [apply Ho|apply Hb]; reflexivity.
Defined.

Lemma registered_object_Some k cs v :
  is_Some (registered_object k cs (Some v)).
Proof.
  revert v. induction cs as [|c cs IH]; intros v; simpl; [by eexists|].
  destruct c; try apply IH.
  destruct (decide (toString objectTypeName = k)); apply IH.
Qed.

Lemma registered_behavior_Some k cs v :
  is_Some (registered_behavior k cs (Some v)).
Proof.
  revert v. induction cs as [|c cs IH]; intros v; simpl; [by eexists|].
  destruct c; try apply IH.
  destruct (decide (toString behaviorTypeName = k)); apply IH.
Qed.

(** X5: nothing is ever removed from the registries.  An identifier found in
    a registry is still found after any history of calls, so that its
    lookup stays silent and leaves the world as it is. *)
Theorem registrations_are_never_lost (w : world) (cs : list call) (id : string) :
  (Hashtable.containsKey (IString id) (objectsTypes (gdjs w)) = true →
   Hashtable.containsKey (IString id) (objectsTypes (gdjs (run cs w))) = true
   ∧ (getObjectConstructor (IString id) (run cs w)).2 = run cs w)
  ∧
  (Hashtable.containsKey (IString id) (behaviorsTypes (gdjs w)) = true →
   Hashtable.containsKey (IString id) (behaviorsTypes (gdjs (run cs w))) = true
   ∧ (getBehaviorConstructor (IString id) (run cs w)).2 = run cs w).
Proof.
  split; intros H; apply bool_decide_eq_true in H; destruct H as [v Hv];
    simpl in Hv.
  - assert (Hk : Hashtable.containsKey (IString id)
                   (objectsTypes (gdjs (run cs w))) = true).
    { destruct (registered_object_Some id cs v) as [v' Hv'].
      apply (containsKey_true (IString id) _ v'). simpl.
      by rewrite run_objectsTypes, Hv. }
    split; [done|]. by rewrite getObjectConstructor_hit.
  - assert (Hk : Hashtable.containsKey (IString id)
                   (behaviorsTypes (gdjs (run cs w))) = true).
    { destruct (registered_behavior_Some id cs v) as [v' Hv'].
      apply (containsKey_true (IString id) _ v'). simpl.
      by rewrite run_behaviorsTypes, Hv. }
    split; [done|]. by rewrite getBehaviorConstructor_hit.
Qed.

Lemma registrations_are_never_lost_witness :
  let w := (registerObject (IString "Foo") (Ref 1) (load standard_console)).2 in
  let cs := [CallClearGlobalCallbacks;
             CallRegisterObject (IString "Bar") (Ref 2);
             CallRegisterGlobalCallbacks;
             CallGetBehaviorConstructor (IString "Foo")] in
  Hashtable.containsKey (IString "Foo") (objectsTypes (gdjs (run cs w))) = true
  ∧ (getObjectConstructor (IString "Foo") (run cs w)).2 = run cs w.
Proof.
  intros w cs.
  apply (proj1 (registrations_are_never_lost w cs "Foo")). reflexivity.
Defined.



(** X7: the lookups never write to the namespace object nor to the console
    object: whatever the identifier and the world, and whether they return
    or throw, the registries and callback arrays are as before, and at most
    one line is printed. *)
Theorem lookups_do_not_mutate (name : ident) (w : world) :
  (gdjs (getObjectConstructor name w).2 = gdjs w
   ∧ console (getObjectConstructor name w).2 = console w
   ∧ ∃ ds, output (getObjectConstructor name w).2 = output w ++ ds
           ∧ (length ds ≤ 1)%nat)
  ∧
  (gdjs (getBehaviorConstructor name w).2 = gdjs w
   ∧ console (getBehaviorConstructor name w).2 = console w
   ∧ ∃ ds, output (getBehaviorConstructor name w).2 = output w ++ ds
           ∧ (length ds ≤ 1)%nat).
Proof.
  split; run_M.
  - destruct (is_defined name && _); simpl.
    + do 2 (split; [done|]). exists []. rewrite app_nil_r. split; [done|simpl; lia].
    + destruct (console w !! "warn"); simpl.
      * do 2 (split; [done|]). eexists [_]. split; [reflexivity|]. simpl. lia.
      * do 2 (split; [done|]). exists []. rewrite app_nil_r. split; [done|simpl; lia].
  - destruct (is_defined name && _); simpl.
    + do 2 (split; [done|]). exists []. rewrite app_nil_r. split; [done|simpl; lia].
    + destruct (console w !! "warn"); simpl.
      * do 2 (split; [done|]). eexists [_]. split; [reflexivity|]. simpl. lia.
      * do 2 (split; [done|]). exists []. rewrite app_nil_r. split; [done|simpl; lia].
Qed.

Lemma load_warn_with_log (host : gmap string level) l :
  host !! "log" = Some l → is_Some (console (load host) !! "warn").
Proof.
  intros Hl. destruct (host !! "warn") as [lvl|] eqn:Hw.
  - exists lvl. by apply load_warn_native.
  - exists l. by apply load_warn_from_log.
Qed.

(** X8: in a host whose console has [log], even without [warn], the last
    statements of the file make [console.warn] callable, so that after any
    history both lookups return normally for every identifier, registered
    or not. *)
Theorem lookups_return_with_console_log
  (host : gmap string level) (l : level) (cs : list call) (name : ident) :
  host !! "log" = Some l →
  (∃ v, (getObjectConstructor name (run cs (load host))).1 = Normal v)
  ∧ (∃ v, (getBehaviorConstructor name (run cs (load host))).1 = Normal v).
Proof.
  intros Hl. destruct (load_warn_with_log host l Hl) as [lvl Hw].
  rewrite <- (run_console cs) in Hw. split.
  - destruct (is_defined name
              && Hashtable.containsKey name (objectsTypes (gdjs (run cs (load host)))))
      eqn:Hc.
    + eexists. run_M. by rewrite Hc.
    + eexists. by rewrite (getObjectConstructor_miss _ _ lvl).
  - destruct (is_defined name
              && Hashtable.containsKey name (behaviorsTypes (gdjs (run cs (load host)))))
      eqn:Hc.
    + eexists. run_M. by rewrite Hc.
    + eexists. by rewrite (getBehaviorConstructor_miss _ _ lvl).
Qed.

Lemma lookups_return_with_console_log_witness :
  (∃ v, (getObjectConstructor (IString "Foo")
           (run [CallClearGlobalCallbacks] (load {[ "log" := Log ]}))).1 = Normal v)
  ∧ (∃ v, (getBehaviorConstructor (IString "Foo")
             (run [CallClearGlobalCallbacks] (load {[ "log" := Log ]}))).1 = Normal v).
Proof.
  apply (lookups_return_with_console_log {[ "log" := Log ]} Log
           [CallClearGlobalCallbacks] (IString "Foo")).
  reflexivity.
Defined.

(** X9: in a host whose console has neither [warn] nor [log], a lookup that
    misses throws a TypeError instead of returning the fallback, and leaves
    the world as it was. *)
Theorem lookup_miss_throws_without_console
  (host : gmap string level) (cs : list call) (name : ident) :
  host !! "warn" = None → host !! "log" = None →
  let w := run cs (load host) in
  (is_defined name && Hashtable.containsKey name (objectsTypes (gdjs w)) = false →
   getObjectConstructor name w
   = (Throw (TypeError "console.warn is not a function"), w))
  ∧
  (is_defined name && Hashtable.containsKey name (behaviorsTypes (gdjs w)) = false →
   getBehaviorConstructor name w
   = (Throw (TypeError "console.warn is not a function"), w)).
Proof.
  intros Hw Hl w.
  assert (Hc : console w !! "warn" = None).
  { unfold w. rewrite run_console. simpl. rewrite or_log_other by done.
    unfold or_log. by rewrite Hw, Hl. }
  split; intros Hmiss; run_M; by rewrite Hmiss, Hc.
Qed.

Lemma lookup_miss_throws_without_console_witness :
  let w := run [CallRegisterObject (IString EmptyString) (Ref 0)] (load ∅) in
  getObjectConstructor (IString "Foo") w
  = (Throw (TypeError "console.warn is not a function"), w).
Proof.
  intros w.
  destruct (lookup_miss_throws_without_console ∅
              [CallRegisterObject (IString EmptyString) (Ref 0)]
              (IString "Foo")) as [H _]; [reflexivity..|].
  apply H. reflexivity.
Defined.

Lemma exec_callbacks e c w :
  callbacks e (gdjs (exec c w).2) = callbacks_after e (callbacks e (gdjs w)) c.
Proof.
  destruct c as [n v|n v|e' v| | |n|n]; simpl.
  - done.
  - done.
  - by destruct e', e.
  - run_M. destruct (console w !! "warning"); simpl; done.
  - by destruct e.
  - run_M. destruct (is_defined n && _); [done|].
    destruct (console w !! "warn"); simpl; done.
  - run_M. destruct (is_defined n && _); [done|].
    destruct (console w !! "warn"); simpl; done.
Qed.

Lemma run_callbacks e cs w :
  callbacks e (gdjs (run cs w))
  = foldl (callbacks_after e) (callbacks e (gdjs w)) cs.
Proof.
  revert w. induction cs as [|c cs IH]; intros w; simpl; [done|].
  by rewrite IH, exec_callbacks.
Qed.

Lemma run_app cs1 cs2 w : run (cs1 ++ cs2) w = run cs2 (run cs1 w).
Proof.
  revert w. induction cs1 as [|c cs1 IH]; intros w; simpl; [done|].
  apply IH.
Qed.

Lemma foldl_callbacks_after_no_reset e cs l :
  forallb (λ c, negb (is_reset c)) cs = true →
  foldl (callbacks_after e) l cs = l ++ registered_callbacks e cs.
Proof.
  revert l. induction cs as [|c cs IH]; intros l; simpl.
  - by rewrite app_nil_r.
  - intros [Hc Hcs]%andb_true_iff. rewrite (IH _ Hcs).
    destruct c as [| |e' v| | | |]; simpl; try done.
    destruct (decide (e' = e)); [|done].
    by rewrite <- app_assoc.
Qed.

(** X10: for each of the five events, the callback array holds what was
    registered for the event since the last reset, in registration order.
    A history without reset appends, to the array it started from, the
    callbacks it registered for the event; after a reset followed by such a
    history, the array, and so a dispatch, holds those callbacks only;
    registrations for the other events, registry calls and lookups do not
    show. *)
Theorem callbacks_since_last_reset
  (e : event) (w : world) (before since : list call) :
  forallb (λ c, negb (is_reset c)) since = true →
  callbacks e (gdjs (run since w))
  = callbacks e (gdjs w) ++ registered_callbacks e since
  ∧ callbacks e (gdjs (run (before ++ CallClearGlobalCallbacks :: since) w))
    = registered_callbacks e since
  ∧ dispatch e (run (before ++ CallClearGlobalCallbacks :: since) w)
    = registered_callbacks e since.
Proof.
  intros H.
  assert (H1 : ∀ w', callbacks e (gdjs (run since w'))
                     = callbacks e (gdjs w') ++ registered_callbacks e since).
  { intros w'. by rewrite run_callbacks, foldl_callbacks_after_no_reset. }
  assert (H2 : callbacks e (gdjs (run (before ++ CallClearGlobalCallbacks :: since) w))
               = registered_callbacks e since).
  { rewrite run_app. simpl. rewrite H1. by destruct e. }
  split; [apply H1|]. split; [done|]. by rewrite dispatch_spec.
Qed.

Lemma callbacks_since_last_reset_witness :
  let before := [CallRegisterCallback SceneUnloaded (Ref 1);
                 CallRegisterCallback ScenePaused (Ref 2)] in
  let since := [CallRegisterCallback SceneUnloaded (Ref 3);
                CallRegisterCallback SceneResumed (Ref 4);
                CallRegisterObject (IString "Foo") (Ref 5);
                CallRegisterCallback SceneUnloaded (Ref 3);
                CallGetBehaviorConstructor (IString "Foo");
                CallRegisterCallback SceneUnloaded (Ref 6)] in
  dispatch SceneUnloaded
    (run (before ++ CallClearGlobalCallbacks :: since) (load standard_console))
  = [Ref 3; Ref 3; Ref 6].
Proof.
  intros before since.
  apply (callbacks_since_last_reset SceneUnloaded (load standard_console)
           before since).
  reflexivity.
Defined.

(** X11: in every host whose console has no [warning] method,
    [registerGlobalCallbacks] throws a TypeError after any history of
    calls, and leaves the namespace object, the console and the printed
    text as they were. *)
Theorem registerGlobalCallbacks_throws_after_any_history
  (host : gmap string level) (cs : list call) :
  host !! "warning" = None →
  let w := run cs (load host) in
  registerGlobalCallbacks w
  = (Throw (TypeError "console.warning is not a function"), w).
Proof.
  intros H w. apply registerGlobalCallbacks_without_warning.
  by apply run_load_without_warning.
Qed.

Lemma registerGlobalCallbacks_throws_after_any_history_witness :
  let w := run [CallRegisterObject (IString EmptyString) (Ref 0);
                CallRegisterCallback SceneLoaded (Ref 1)]
               (load {[ "log" := Log ]}) in
  registerGlobalCallbacks w
  = (Throw (TypeError "console.warning is not a function"), w).
Proof.
  apply (registerGlobalCallbacks_throws_after_any_history {[ "log" := Log ]}
           [CallRegisterObject (IString EmptyString) (Ref 0);
            CallRegisterCallback SceneLoaded (Ref 1)]).
  reflexivity.
Defined.

(** * Colors *)

Lemma toInt32_small z :
  (-2147483648 ≤ z < 2147483648)%Z → toInt32 z = z.
Proof. intros H. unfold toInt32. rewrite Z.mod_small; lia. Qed.

Lemma shl_16 r : (-32768 ≤ r < 32768)%Z → shl r 16 = (r * 65536)%Z.
Proof.
  intros H. unfold shl. rewrite (toInt32_small r) by lia.
  change (2 ^ (16 mod 32))%Z with 65536%Z. apply toInt32_small. lia.
Qed.

Lemma shl_8 g : (-8388608 ≤ g < 8388608)%Z → shl g 8 = (g * 256)%Z.
Proof.
  intros H. unfold shl. rewrite (toInt32_small g) by lia.
  change (2 ^ (8 mod 32))%Z with 256%Z. apply toInt32_small. lia.
Qed.

Lemma toString16_go_more fuel n acc :
  (n / 16 ≠ 0)%Z →
  toString16_go (S fuel) n acc
  = toString16_go fuel (n / 16)%Z (String (hex_digit (n mod 16)) acc).
Proof. intros H. simpl. by apply Z.eqb_neq in H as ->. Qed.

Lemma toString16_go_last fuel n acc :
  (n / 16 = 0)%Z →
  toString16_go (S fuel) n acc = String (hex_digit (n mod 16)) acc.
Proof. intros H. simpl. by apply Z.eqb_eq in H as ->. Qed.

Lemma hex_digit_value_digit d :
  (0 ≤ d < 16)%Z → hex_digit_value (hex_digit d) = d.
Proof.
  intros H.
  assert (Hd : d = Z.of_nat (Z.to_nat d)) by lia.
  rewrite Hd at 2. 
  assert (Hn : (Z.to_nat d < 16)%nat) by lia.
  unfold hex_digit. generalize dependent (Z.to_nat d). intros n _ Hn.
  do 16 (destruct n as [|n]; [reflexivity|]). lia.
Qed.

(** The fuel given by [toString16] is enough: the string produced denotes
    the number. *)
Lemma hex_value_toString16_go fuel n acc :
  (0 ≤ n < 16 ^ Z.of_nat fuel)%Z → (0 < fuel)%nat →
  hex_value (toString16_go fuel n acc) 0 = hex_value acc n.
Proof.
  revert n acc. induction fuel as [|fuel IH]; intros n acc Hn Hf; [lia|].
  assert (Hpow : (16 ^ Z.of_nat (S fuel) = 16 * 16 ^ Z.of_nat fuel)%Z).
  { rewrite Nat2Z.inj_succ, Z.pow_succ_r; lia. }
  assert (Hd : hex_digit_value (hex_digit (n mod 16)) = (n mod 16)%Z).
  { apply hex_digit_value_digit. apply Z.mod_pos_bound. lia. }
  destruct (decide (n / 16 = 0)%Z) as [Hz|Hnz].
  - rewrite toString16_go_last by done. simpl. rewrite Hd. f_equal.
    pose proof (Z.div_mod n 16). lia.
  - rewrite toString16_go_more by done.
    rewrite IH.
    + simpl. rewrite Hd. f_equal. pose proof (Z.div_mod n 16). lia.
    + split; [apply Z.div_pos; lia|].
      apply Z.div_lt_upper_bound; lia.
    + destruct fuel; [|lia]. simpl in Hn.
      assert (n / 16 = 0)%Z by (apply Z.div_small; lia). done.
Qed.

Lemma hex_value_toString16 n :
  (0 ≤ n)%Z → hex_value (toString16 n) 0 = n.
Proof.
  intros Hn. unfold toString16.
  destruct (n <? 0)%Z eqn:Hneg; [apply Z.ltb_lt in Hneg; lia|].
  rewrite hex_value_toString16_go; [done| |lia].
  split; [done|].
  rewrite Nat2Z.inj_succ, Z2Nat.id by apply Z.log2_nonneg.
  destruct (decide (n = 0%Z)) as [->|Hpos]; [done|].
  pose proof (Z.log2_spec n ltac:(lia)) as [_ Hlt].
  eapply Z.lt_le_trans; [exact Hlt|].
  apply Z.pow_le_mono_l. lia.
Qed.

(** X12: on color components that are bytes, [rgbToHexNumber] packs them as
    [r * 65536 + g * 256 + b], a number below [2 ^ 24], from which each
    component is read back; so different colors get different numbers. *)
Theorem rgbToHexNumber_bytes (r g b : Z) :
  (0 ≤ r < 256)%Z → (0 ≤ g < 256)%Z → (0 ≤ b < 256)%Z →
  rgbToHexNumber r g b = (r * 65536 + g * 256 + b)%Z
  ∧ (0 ≤ rgbToHexNumber r g b < 16777216)%Z
  ∧ (rgbToHexNumber r g b / 65536 = r)%Z
  ∧ ((rgbToHexNumber r g b / 256) mod 256 = g)%Z
  ∧ (rgbToHexNumber r g b mod 256 = b)%Z.
Proof.
  intros Hr Hg Hb. unfold rgbToHexNumber.
  rewrite shl_16, shl_8 by lia.
  repeat split; try lia; Z.div_mod_to_equations; lia.
Qed.

Lemma rgbToHexNumber_bytes_witness :
  rgbToHexNumber 255 128 7 = (255 * 65536 + 128 * 256 + 7)%Z
  ∧ (0 ≤ rgbToHexNumber 255 128 7 < 16777216)%Z
  ∧ (rgbToHexNumber 255 128 7 / 65536 = 255)%Z
  ∧ ((rgbToHexNumber 255 128 7 / 256) mod 256 = 128)%Z
  ∧ (rgbToHexNumber 255 128 7 mod 256 = 7)%Z.
Proof. apply (rgbToHexNumber_bytes 255 128 7); lia. Defined.

(** X13: [rgbToHexNumber] works on 32 bits: a red component from 32768 to
    65535 shifts into the sign bit, and the result is negative, 2 ^ 32
    below the packed value. *)
Theorem rgbToHexNumber_wraps (r g b : Z) :
  (32768 ≤ r < 65536)%Z → (0 ≤ g < 256)%Z → (0 ≤ b < 256)%Z →
  rgbToHexNumber r g b = (r * 65536 + g * 256 + b - 4294967296)%Z
  ∧ (rgbToHexNumber r g b < 0)%Z.
Proof.
  intros Hr Hg Hb. unfold rgbToHexNumber. rewrite shl_8 by lia.
  assert (H : shl r 16 = (r * 65536 - 4294967296)%Z).
  { unfold shl. rewrite (toInt32_small r) by lia.
    change (2 ^ (16 mod 32))%Z with 65536%Z. unfold toInt32.
    Z.div_mod_to_equations. lia. }
  rewrite H. lia.
Qed.

Lemma rgbToHexNumber_wraps_witness :
  rgbToHexNumber 32768 0 1 = (32768 * 65536 + 0 * 256 + 1 - 4294967296)%Z
  ∧ (rgbToHexNumber 32768 0 1 < 0)%Z.
Proof. apply (rgbToHexNumber_wraps 32768 0 1); lia. Defined.

(** X14: on color components that are bytes, [rgbToHex] is the six
    lowercase hexadecimal digits of the color, two per component, red
    first, zero-padded; read as a hexadecimal number it is the value of
    [rgbToHexNumber]. *)
Theorem rgbToHex_bytes (r g b : Z) :
  (0 ≤ r < 256)%Z → (0 ≤ g < 256)%Z → (0 ≤ b < 256)%Z →
  rgbToHex r g b = hex2 r +:+ hex2 g +:+ hex2 b
  ∧ String.length (rgbToHex r g b) = 6%nat
  ∧ hex_value (rgbToHex r g b) 0 = rgbToHexNumber r g b.
Proof.
  intros Hr Hg Hb.
  assert (H : rgbToHex r g b = hex2 r +:+ hex2 g +:+ hex2 b).
  { unfold rgbToHex. rewrite shl_16, shl_8 by lia.
    change (shl 1 24) with 16777216%Z.
    set (n := (16777216 + r * 65536 + g * 256 + b)%Z).
    unfold toString16.
    destruct (n <? 0)%Z eqn:Hneg; [apply Z.ltb_lt in Hneg; lia|].
    assert (Hlog : Z.log2 n = 24%Z).
    { apply Z.log2_unique; [lia|]. change (2 ^ 24)%Z with 16777216%Z.
      change (2 ^ Z.succ 24)%Z with 33554432%Z. lia. }
    rewrite Hlog. change (S (Z.to_nat 24)) with (S (S (S (S (S (S (S 18))))))).
    assert (E0 : (n mod 16 = b mod 16)%Z) by (unfold n; Z.div_mod_to_equations; lia).
    assert (D1 : (n / 16 = 1048576 + r * 4096 + g * 16 + b / 16)%Z)
      by (unfold n; Z.div_mod_to_equations; lia).
    rewrite toString16_go_more by (rewrite D1; Z.div_mod_to_equations; lia). rewrite E0, D1.
    set (n1 := (1048576 + r * 4096 + g * 16 + b / 16)%Z).
    assert (E1 : (n1 mod 16 = b / 16)%Z) by (unfold n1; Z.div_mod_to_equations; lia).
    assert (D2 : (n1 / 16 = 65536 + r * 256 + g)%Z)
      by (unfold n1; Z.div_mod_to_equations; lia).
    rewrite toString16_go_more by (rewrite D2; Z.div_mod_to_equations; lia). rewrite E1, D2.
    set (n2 := (65536 + r * 256 + g)%Z).
    assert (E2 : (n2 mod 16 = g mod 16)%Z) by (unfold n2; Z.div_mod_to_equations; lia).
    assert (D3 : (n2 / 16 = 4096 + r * 16 + g / 16)%Z)
      by (unfold n2; Z.div_mod_to_equations; lia).
    rewrite toString16_go_more by (rewrite D3; Z.div_mod_to_equations; lia). rewrite E2, D3.
    set (n3 := (4096 + r * 16 + g / 16)%Z).
    assert (E3 : (n3 mod 16 = g / 16)%Z) by (unfold n3; Z.div_mod_to_equations; lia).
    assert (D4 : (n3 / 16 = 256 + r)%Z) by (unfold n3; Z.div_mod_to_equations; lia).
    rewrite toString16_go_more by (rewrite D4; Z.div_mod_to_equations; lia). rewrite E3, D4.
    assert (E4 : ((256 + r) mod 16 = r mod 16)%Z) by (Z.div_mod_to_equations; lia).
    assert (D5 : ((256 + r) / 16 = 16 + r / 16)%Z) by (Z.div_mod_to_equations; lia).
    rewrite toString16_go_more by (rewrite D5; Z.div_mod_to_equations; lia). rewrite E4, D5.
    assert (E5 : ((16 + r / 16) mod 16 = r / 16)%Z) by (Z.div_mod_to_equations; lia).
    assert (D6 : ((16 + r / 16) / 16 = 1)%Z) by (Z.div_mod_to_equations; lia).
    rewrite toString16_go_more by (rewrite D6; Z.div_mod_to_equations; lia). rewrite E5, D6.
    rewrite toString16_go_last by done.
    reflexivity. }
  split; [done|]. split.
  - by rewrite H.
  - destruct (rgbToHexNumber_bytes r g b Hr Hg Hb) as (-> & _).
    rewrite H. unfold hex2. simpl.
    rewrite !hex_digit_value_digit by (Z.div_mod_to_equations; lia).
    Z.div_mod_to_equations. lia.
Qed.

Lemma rgbToHex_bytes_witness :
  rgbToHex 255 0 128 = hex2 255 +:+ hex2 0 +:+ hex2 128
  ∧ String.length (rgbToHex 255 0 128) = 6%nat
  ∧ hex_value (rgbToHex 255 0 128) 0 = rgbToHexNumber 255 0 128.
Proof. apply (rgbToHex_bytes 255 0 128); lia. Defined.

(** * Random integers *)

(** X15: with an empty or reversed range the random functions do not draw:
    [random(max)] is [0] for [max <= 0], [randomInRange(min, max)] is [min]
    for [min >= max], and so is [randomWithStep(min, max, step)] for every
    step, positive or not. *)
Theorem random_of_empty_range (draw : Z → Z) (min max step : Z) :
  (max ≤ min)%Z →
  random draw (max - min) = 0%Z
  ∧ randomInRange draw min max = min
  ∧ randomWithStep draw min max step = min.
Proof.
  intros H.
  assert (H0 : ∀ m, (m ≤ 0)%Z → random draw m = 0%Z).
  { intros m Hm. unfold random. by apply Z.leb_le in Hm as ->. }
  split; [apply H0; lia|]. split.
  - unfold randomInRange. rewrite H0; lia.
  - unfold randomWithStep. destruct (step <=? 0)%Z eqn:Hs.
    + rewrite H0; lia.
    + apply Z.leb_gt in Hs. rewrite H0; [lia|].
      apply Z.div_le_upper_bound; lia.
Qed.

Lemma random_of_empty_range_witness :
  random (λ n, n - 1)%Z (3 - 7) = 0%Z
  ∧ randomInRange (λ n, n - 1)%Z 7 3 = 7%Z
  ∧ randomWithStep (λ n, n - 1)%Z 7 3 2 = 7%Z.
Proof. apply (random_of_empty_range (λ n, n - 1)%Z 7 3 2). lia. Defined.

(** X16: when the draw [Math.floor(Math.random() * n)] lies in [0, n), as
    it does for [Math.random()] in [0, 1), [random(max)] lies between [0]
    and [max], both included, and [randomInRange(min, max)] between [min]
    and [max], both included. *)
Theorem randomInRange_bounds (draw : Z → Z) (min max : Z) :
  (∀ n, 0 < n → 0 ≤ draw n < n)%Z →
  (min ≤ max)%Z →
  (0 ≤ random draw (max - min) ≤ max - min)%Z
  ∧ (min ≤ randomInRange draw min max ≤ max)%Z.
Proof.
  intros Hdraw H.
  assert (H0 : (0 ≤ random draw (max - min) ≤ max - min)%Z).
  { unfold random. destruct (max - min <=? 0)%Z eqn:Hm.
    - apply Z.leb_le in Hm. lia.
    - apply Z.leb_gt in Hm.
      pose proof (Hdraw (max - min + 1)%Z ltac:(lia)). lia. }
  split; [done|]. unfold randomInRange. lia.
Qed.

Lemma randomInRange_bounds_witness :
  (0 ≤ random (λ n, n - 1)%Z (9 - 4) ≤ 9 - 4)%Z
  ∧ (4 ≤ randomInRange (λ n, n - 1)%Z 4 9 ≤ 9)%Z.
Proof. apply (randomInRange_bounds (λ n, n - 1)%Z 4 9); intros; lia. Defined.

(** X17: under the same assumption on the draw, for a positive step and
    [min <= max], [randomWithStep(min, max, step)] is [min] plus a whole
    number of steps, and lies between [min] and [max]. *)
Theorem randomWithStep_on_grid (draw : Z → Z) (min max step : Z) :
  (∀ n, 0 < n → 0 ≤ draw n < n)%Z →
  (0 < step)%Z → (min ≤ max)%Z →
  ∃ k, (0 ≤ k ≤ (max - min) / step)%Z
       ∧ randomWithStep draw min max step = (min + k * step)%Z
       ∧ (min ≤ randomWithStep draw min max step ≤ max)%Z.
Proof.
  intros Hdraw Hs H.
  assert (Hq : (0 ≤ (max - min) / step)%Z) by (apply Z.div_pos; lia).
  assert (Hk : (0 ≤ random draw ((max - min) / step) ≤ (max - min) / step)%Z).
  { unfold random. destruct ((max - min) / step <=? 0)%Z eqn:Hm.
    - lia.
    - apply Z.leb_gt in Hm.
      pose proof (Hdraw ((max - min) / step + 1)%Z ltac:(lia)). lia. }
  exists (random draw ((max - min) / step)).
  assert (E : randomWithStep draw min max step
              = (min + random draw ((max - min) / step) * step)%Z).
  { unfold randomWithStep. by apply Z.leb_gt in Hs as ->. }
  split; [done|]. split; [done|]. rewrite E.
  pose proof (Z.mul_div_le (max - min) step Hs).
  split; [nia|]. nia.
Qed.

Lemma randomWithStep_on_grid_witness :
  ∃ k, (0 ≤ k ≤ (10 - 0) / 3)%Z
       ∧ randomWithStep (λ n, n - 1)%Z 0 10 3 = (0 + k * 3)%Z
       ∧ (0 ≤ randomWithStep (λ n, n - 1)%Z 0 10 3 ≤ 10)%Z.
Proof.
  apply (randomWithStep_on_grid (λ n, n - 1)%Z 0 10 3); intros; lia.
Defined.

(** * Arrays *)

Lemma array_set_in_range i x (arr : list value) :
  (i < length arr)%nat → array_set i x arr = <[i := x]> arr.
Proof. intros H. unfold array_set. by rewrite decide_True. Qed.

Lemma array_get_Some i (arr : list value) x :
  arr !! i = Some x → array_get i arr = x.
Proof. unfold array_get. by intros ->. Qed.

Lemma remove_loop_spec steps : ∀ i (this : list value),
  (i + steps < length this)%nat →
  length (remove_loop steps i this) = length this
  ∧ ∀ j, remove_loop steps i this !! j
         = if decide (i ≤ j < i + steps)%nat then this !! S j else this !! j.
Proof.
  induction steps as [|steps IH]; intros i this H; simpl.
  - split; [done|]. intros j. rewrite decide_False; [done|lia].
  - destruct (lookup_lt_is_Some_2 this (i + 1)) as [x Hx]; [lia|].
    rewrite (array_get_Some _ _ x Hx), array_set_in_range by lia.
    destruct (IH (S i) (<[i := x]> this)) as [Hlen Hlook].
    { rewrite length_insert. lia. }
    rewrite length_insert in Hlen. split; [done|].
    intros j. rewrite Hlook.
    destruct (decide (S i ≤ j < S i + steps)%nat),
             (decide (i ≤ j < i + S steps)%nat); try lia.
    + rewrite list_lookup_insert_ne by lia. done.
    + destruct (decide (j = i)) as [->|].
      * rewrite list_lookup_insert_eq by lia. by rewrite <- Hx, Nat.add_1_r.
      * lia.
    + rewrite list_lookup_insert_ne by lia. done.
Qed.

(** X18: [remove(from)] with [from] inside the array deletes the element at
    that index and keeps the others in order; the array is one shorter. *)
Theorem Array_remove_in_range (from : nat) (this : list value) :
  (from < length this)%nat →
  Array_remove from this = inr (delete from this)
  ∧ length (delete from this) = (length this - 1)%nat.
Proof.
  intros H. split; [|rewrite length_delete; [done|by apply lookup_lt_is_Some_2]].
  unfold Array_remove, array_set_length.
  destruct (Z.of_nat (length this) - 1 <? 0)%Z eqn:Hneg;
    [apply Z.ltb_lt in Hneg; lia|].
  replace (Z.to_nat (Z.of_nat (length this) - 1 - Z.of_nat from))
    with (length this - 1 - from)%nat by lia.
  replace (Z.to_nat (Z.of_nat (length this) - 1)) with (length this - 1)%nat by lia.
  destruct (remove_loop_spec (length this - 1 - from) from this) as [Hlen Hlook];
    [lia|].
  rewrite Hlen. replace (length this - 1 - length this)%nat with 0%nat by lia.
  simpl. rewrite app_nil_r. f_equal.
  apply list_eq. intros j.
  destruct (decide (j < length this - 1)%nat) as [Hj|Hj].
  - rewrite lookup_take_lt by done. rewrite Hlook.
    destruct (decide (from ≤ j < from + (length this - 1 - from))%nat).
    + rewrite list_lookup_delete_ge by lia. done.
    + rewrite list_lookup_delete_lt by lia. done.
  - rewrite lookup_take_ge by lia.
    symmetry. apply lookup_ge_None. rewrite length_delete; [lia|].
    by apply lookup_lt_is_Some_2.
Qed.

Lemma Array_remove_in_range_witness :
  Array_remove 1 [Ref 1; Ref 2; Ref 3] = inr (delete 1%nat [Ref 1; Ref 2; Ref 3])
  ∧ length (delete 1%nat [Ref 1; Ref 2; Ref 3]) = (3 - 1)%nat.
Proof. apply (Array_remove_in_range 1 [Ref 1; Ref 2; Ref 3]). simpl. lia. Defined.

(** X19: [remove(from)] with [from] at or beyond the length of an array
    that is not empty does not leave the array alone: it drops the last
    element. *)
Theorem Array_remove_out_of_range (from : nat) (this : list value) :
  (length this ≤ from)%nat → this ≠ [] →
  Array_remove from this = inr (take (length this - 1) this).
Proof.
  intros H Hne. unfold Array_remove, array_set_length.
  assert (0 < length this)%nat by (destruct this; [done|simpl; lia]).
  destruct (Z.of_nat (length this) - 1 <? 0)%Z eqn:Hneg;
    [apply Z.ltb_lt in Hneg; lia|].
  replace (Z.to_nat (Z.of_nat (length this) - 1 - Z.of_nat from)) with 0%nat by lia.
  replace (Z.to_nat (Z.of_nat (length this) - 1)) with (length this - 1)%nat by lia.
  simpl. replace (length this - 1 - length this)%nat with 0%nat by lia.
  simpl. by rewrite app_nil_r.
Qed.

Lemma Array_remove_out_of_range_witness :
  Array_remove 7 [Ref 1; Ref 2; Ref 3] = inr [Ref 1; Ref 2].
Proof.
  apply (Array_remove_out_of_range 7 [Ref 1; Ref 2; Ref 3]); [simpl; lia|done].
Defined.

(** X20: [remove] on an empty array throws a RangeError, whatever the
    index: the length it assigns is [-1]. *)
Theorem Array_remove_empty (from : nat) :
  Array_remove from [] = inl (RangeError "Invalid array length").
Proof. reflexivity. Qed.

Lemma createFrom_loop_spec steps (arr : list value) : ∀ i (this : list value),
  (i + steps = length arr)%nat → take i this = take i arr →
  (i ≤ length this)%nat →
  take (length arr) (createFrom_loop steps i arr this) = arr
  ∧ (length arr ≤ length (createFrom_loop steps i arr this))%nat.
Proof.
  induction steps as [|steps IH]; intros i this Hi Htake Hlen; simpl.
  - rewrite Nat.add_0_r in Hi. subst i. split; [|done].
    rewrite Htake. by rewrite firstn_all.
  - destruct (lookup_lt_is_Some_2 arr i) as [x Hx]; [lia|].
    rewrite (array_get_Some _ _ x Hx).
    apply IH; [lia| |].
    + rewrite (take_S_r arr i x Hx). unfold array_set.
      destruct (decide (i < length this)%nat) as [Hlt|Hge].
      * destruct (lookup_lt_is_Some_2 this i Hlt) as [y Hy].
        rewrite (take_S_r _ i x) by (by rewrite list_lookup_insert_eq).
        rewrite take_insert_ge by lia. by rewrite Htake.
      * assert (i = length this) as -> by lia.
        rewrite Nat.sub_diag. simpl.
        rewrite take_ge by (rewrite length_app; simpl; lia).
        f_equal. rewrite <- Htake. by rewrite firstn_all.
    + unfold array_set. destruct (decide (i < length this)%nat).
      * rewrite length_insert. lia.
      * rewrite !length_app. simpl. lia.
Qed.

(** X21: [this.createFrom(arr)] makes [this] a copy of [arr], whatever
    [this] held and whether it was shorter or longer than [arr]. *)
Theorem Array_createFrom_copies (arr this : list value) :
  Array_createFrom arr this = inr arr.
Proof.
  unfold Array_createFrom, array_set_length.
  destruct (Z.of_nat (length arr) <? 0)%Z eqn:Hneg;
    [apply Z.ltb_lt in Hneg; lia|].
  rewrite Nat2Z.id.
  destruct (createFrom_loop_spec (length arr) arr 0 this) as [Htake Hlen];
    [lia|done|lia|].
  rewrite Htake.
  replace (length arr - length (createFrom_loop (length arr) 0 arr this))%nat
    with 0%nat by lia.
  simpl. by rewrite app_nil_r.
Qed.

Lemma objectsListsToArray_inner_spec steps : ∀ k (arr result : list value),
  (k + steps = length arr)%nat →
  objectsListsToArray_inner steps k arr result = result ++ drop k arr.
Proof.
  induction steps as [|steps IH]; intros k arr result H; simpl.
  - rewrite drop_ge by lia. by rewrite app_nil_r.
  - destruct (lookup_lt_is_Some_2 arr k) as [x Hx]; [lia|].
    rewrite (array_get_Some _ _ x Hx), IH by lia.
    unfold push. rewrite <- app_assoc. simpl.
    by rewrite (drop_S arr x k Hx).
Qed.

Lemma objectsListsToArray_outer_spec steps : ∀ i lists (result : list value),
  (i + steps = length lists)%nat →
  objectsListsToArray_outer steps i lists result
  = result ++ concat (drop i lists).
Proof.
  induction steps as [|steps IH]; intros i lists result H; simpl.
  - rewrite drop_ge by lia. by rewrite app_nil_r.
  - destruct (lookup_lt_is_Some_2 lists i) as [arr Harr]; [lia|].
    rewrite Harr. simpl.
    rewrite objectsListsToArray_inner_spec, IH by lia.
    rewrite (drop_S lists arr i Harr). simpl.
    by rewrite <- app_assoc.
Qed.

(** X22: the two loops of [objectsListsToArray] build the concatenation of
    the arrays, in order: every object of every array once, an empty array
    contributing nothing. *)
Theorem objectsListsToArray_concat (lists : list (list value)) :
  objectsListsToArray lists = concat lists
  ∧ length (objectsListsToArray lists) = sum_list (length <$> lists).
Proof.
  assert (H : objectsListsToArray lists = concat lists).
  { unfold objectsListsToArray.
    by rewrite objectsListsToArray_outer_spec. }
  split; [done|]. rewrite H. clear H.
  induction lists as [|l lists IH]; simpl; [done|].
  by rewrite length_app, IH.
Qed.

(** * Static arrays and objects *)

Lemma get_prop_set_prop o p v s : get_prop o p (set_prop o p v s) = v.
Proof.
  unfold get_prop, set_prop. simpl. rewrite lookup_insert_eq. simpl.
  by rewrite lookup_insert_eq.
Qed.

Lemma get_prop_set_prop_other o p p' v s :
  p ≠ p' → get_prop o p' (set_prop o p v s) = get_prop o p' s.
Proof.
  intros Hne. unfold get_prop, set_prop. simpl. rewrite lookup_insert_eq. simpl.
  rewrite lookup_insert_ne by done.
  destruct (props s !! o); simpl; [done|]. by rewrite lookup_empty.
Qed.

Lemma set_prop_same o p v s :
  get_prop o p s = v → v ≠ Undefined → set_prop o p v s = s.
Proof.
  intros Hget Hv. destruct s as [ps es]. unfold get_prop, set_prop in *. simpl in *.
  destruct (ps !! o) as [m|] eqn:Ho; simpl in *; [|congruence].
  destruct (m !! p) as [x|] eqn:Hp; simpl in *; [|congruence]. subst x.
  by rewrite (insert_id m p v Hp), (insert_id ps o m Ho).
Qed.

Lemma fresh_address_spec s :
  (fresh_address s ∉ dom (props s)) ∧ (fresh_address s ∉ dom (elems s)).
Proof.
  pose proof (is_fresh (dom (props s) ∪ dom (elems s))) as H.
  unfold fresh_address. set_solver.
Qed.

(** The shape shared by the three functions: the stored value when there is
    one, a newly allocated object otherwise. *)
Lemma static_reuse o p (alloc : store → value * store) s a :
  get_prop o p s = Ref a →
  (let '(v, s1) := or_else (get_prop o p s) alloc s in
   (get_prop o p (set_prop o p v s1), set_prop o p v s1)) = (Ref a, s).
Proof.
  intros H. rewrite H. simpl. rewrite get_prop_set_prop.
  by rewrite set_prop_same.
Qed.

Lemma static_first o p (alloc : store → value * store) s :
  get_prop o p s = Undefined →
  (let '(v, s1) := or_else (get_prop o p s) alloc s in
   (get_prop o p (set_prop o p v s1), set_prop o p v s1))
  = ((alloc s).1, set_prop o p (alloc s).1 (alloc s).2).
Proof.
  intros H. rewrite H. simpl. destruct (alloc s) as [v s1]. simpl.
  by rewrite get_prop_set_prop.
Qed.

Lemma get_prop_after_alloc o p s f es :
  o ∈ dom (props s) → f ∉ dom (props s) →
  get_prop o p (Store (<[f := ∅]> (props s)) es) = get_prop o p s.
Proof.
  intros Ho Hf. unfold get_prop. simpl.
  rewrite lookup_insert_ne; [done|]. intros ->. done.
Qed.

(** X23: [staticArray(owner)] allocates once.  When the owner already holds
    an array in [_staticArray] the call returns that array and changes
    nothing in the store, so the elements left in it by an earlier use are
    still there; and a second call always returns what the first returned,
    without allocating. *)
Theorem staticArray_reuses (owner : nat) (s : store) :
  (∀ a, get_prop owner "_staticArray" s = Ref a → staticArray owner s = (Ref a, s))
  ∧ staticArray owner (staticArray owner s).2 = staticArray owner s
  ∧ ∃ a, (staticArray owner s).1 = Ref a.
Proof.
  assert (Hreuse : ∀ s' a, get_prop owner "_staticArray" s' = Ref a →
                   staticArray owner s' = (Ref a, s')).
  { intros s' a H. unfold staticArray. by apply static_reuse. }
  split; [apply Hreuse|].
  destruct (get_prop owner "_staticArray" s) as [|a] eqn:Hget.
  - assert (E : staticArray owner s
                = (Ref (fresh_address s),
                   set_prop owner "_staticArray" (Ref (fresh_address s)) (new_array s).2)).
    { unfold staticArray. by rewrite static_first. }
    rewrite E. simpl. split; [|by eexists].
    apply Hreuse. apply get_prop_set_prop.
  - rewrite (Hreuse s a Hget). simpl. split; [by apply Hreuse|by eexists].
Qed.

(** X24: on a live owner without [_staticArray], [staticArray] returns a
    new array: empty, at an address that no object of the store had, so
    different from the owner and from every existing array, whose elements
    it leaves as they were. *)
Theorem staticArray_allocates (owner : nat) (s : store) :
  owner ∈ dom (props s) →
  get_prop owner "_staticArray" s = Undefined →
  let a := fresh_address s in
  let s' := (staticArray owner s).2 in
  (staticArray owner s).1 = Ref a
  ∧ a ≠ owner ∧ (a ∉ dom (props s)) ∧ (a ∉ dom (elems s))
  ∧ elems s' !! a = Some []
  ∧ get_prop owner "_staticArray" s' = Ref a
  ∧ (∀ b, b ≠ a → elems s' !! b = elems s !! b)
  ∧ (∀ p, p ≠ "_staticArray" → get_prop owner p s' = get_prop owner p s).
Proof.
  intros Ho Hget a s'.
  destruct (fresh_address_spec s) as [Hp He].
  assert (E : staticArray owner s
              = (Ref a, set_prop owner "_staticArray" (Ref a) (new_array s).2)).
  { unfold staticArray. by rewrite static_first. }
  unfold s'. rewrite E. simpl.
  split; [done|]. split; [intros Heq; apply Hp; fold a; by rewrite Heq|].
  do 2 (split; [done|]).
  split; [apply lookup_insert_eq|]. split; [apply get_prop_set_prop|]. split.
  - intros b Hb. by apply lookup_insert_ne.
  - intros p Hne. rewrite get_prop_set_prop_other by done.
    by apply get_prop_after_alloc.
Qed.

Lemma staticArray_allocates_witness :
  let s := Store {[ 0%nat := ∅ ]} {[ 1%nat := [Ref 5] ]} in
  (staticArray 0 s).1 = Ref (fresh_address s)
  ∧ elems (staticArray 0 s).2 !! 1%nat = Some [Ref 5].
Proof.
  intros s.
  destruct (staticArray_allocates 0 s) as (H1 & _ & _ & _ & _ & _ & H2 & _).
  - vm_compute. reflexivity.
  - reflexivity.
  - split; [exact H1|]. rewrite H2; [reflexivity|]. vm_compute. lia.
Defined.

Lemma static_first_facts o p (alloc : store → value * store) s :
  o ∈ dom (props s) → get_prop o p s = Undefined →
  (alloc s).1 = Ref (fresh_address s) →
  props (alloc s).2 = <[fresh_address s := ∅]> (props s) →
  let r := (let '(v, s1) := or_else (get_prop o p s) alloc s in
            (get_prop o p (set_prop o p v s1), set_prop o p v s1)) in
  r.1 = Ref (fresh_address s)
  ∧ dom (props r.2) = {[fresh_address s]} ∪ dom (props s)
  ∧ get_prop o p r.2 = Ref (fresh_address s)
  ∧ (∀ p', p ≠ p' → get_prop o p' r.2 = get_prop o p' s).
Proof.
  intros Ho Hget Hv Hps r. unfold r. rewrite static_first by done.
  destruct (fresh_address_spec s) as [Hf _].
  simpl. rewrite Hv. split; [done|]. split; [|split].
  - unfold set_prop. simpl. rewrite Hps, !dom_insert_L.
    apply subseteq_union_1_L, singleton_subseteq_l. by apply elem_of_union_r.
  - apply get_prop_set_prop.
  - intros p' Hne. rewrite get_prop_set_prop_other by done.
    destruct (alloc s) as [v [ps es]]. simpl in *. subst ps.
    by apply get_prop_after_alloc.
Qed.

(** X25: the three static holders of one owner do not share their object.
    On a live owner that has none of them yet, [staticArray],
    [staticArray2] and [staticObject] return three different objects, none
    of them the owner, and afterwards each function returns its own object
    again without changing the store. *)
Theorem static_holders_are_distinct (owner : nat) (s : store) :
  owner ∈ dom (props s) →
  get_prop owner "_staticArray" s = Undefined →
  get_prop owner "_staticArray2" s = Undefined →
  get_prop owner "_staticObject" s = Undefined →
  let r1 := staticArray owner s in
  let r2 := staticArray2 owner r1.2 in
  let r3 := staticObject owner r2.2 in
  r1.1 ≠ r2.1 ∧ r1.1 ≠ r3.1 ∧ r2.1 ≠ r3.1
  ∧ r1.1 ≠ Ref owner ∧ r2.1 ≠ Ref owner ∧ r3.1 ≠ Ref owner
  ∧ staticArray owner r3.2 = (r1.1, r3.2)
  ∧ staticArray2 owner r3.2 = (r2.1, r3.2)
  ∧ staticObject owner r3.2 = (r3.1, r3.2).
Proof.
  intros Ho H1 H2 H3 r1 r2 r3.
  assert (A1 : r1.1 = Ref (fresh_address s)
               ∧ dom (props r1.2) = {[fresh_address s]} ∪ dom (props s)
               ∧ get_prop owner "_staticArray" r1.2 = Ref (fresh_address s)
               ∧ (∀ p', "_staticArray" ≠ p' →
                    get_prop owner p' r1.2 = get_prop owner p' s))
    by exact (static_first_facts owner "_staticArray" new_array s Ho H1
                eq_refl eq_refl).
  destruct A1 as (V1 & D1 & G1 & O1).
  assert (Ho1 : owner ∈ dom (props r1.2)) by (rewrite D1; by apply elem_of_union_r).
  assert (H2' : get_prop owner "_staticArray2" r1.2 = Undefined)
    by (by rewrite O1).
  assert (A2 : r2.1 = Ref (fresh_address r1.2)
               ∧ dom (props r2.2) = {[fresh_address r1.2]} ∪ dom (props r1.2)
               ∧ get_prop owner "_staticArray2" r2.2 = Ref (fresh_address r1.2)
               ∧ (∀ p', "_staticArray2" ≠ p' →
                    get_prop owner p' r2.2 = get_prop owner p' r1.2))
    by exact (static_first_facts owner "_staticArray2" new_array r1.2 Ho1 H2'
                eq_refl eq_refl).
  destruct A2 as (V2 & D2 & G2 & O2).
  assert (Ho2 : owner ∈ dom (props r2.2)) by (rewrite D2; by apply elem_of_union_r).
  assert (H3' : get_prop owner "_staticObject" r2.2 = Undefined)
    by (by rewrite O2, O1).
  assert (A3 : r3.1 = Ref (fresh_address r2.2)
               ∧ dom (props r3.2) = {[fresh_address r2.2]} ∪ dom (props r2.2)
               ∧ get_prop owner "_staticObject" r3.2 = Ref (fresh_address r2.2)
               ∧ (∀ p', "_staticObject" ≠ p' →
                    get_prop owner p' r3.2 = get_prop owner p' r2.2))
    by exact (static_first_facts owner "_staticObject" new_object r2.2 Ho2 H3'
                eq_refl eq_refl).
  destruct A3 as (V3 & D3 & G3 & O3).
  destruct (fresh_address_spec s) as [F1 _].
  destruct (fresh_address_spec r1.2) as [F2 _].
  destruct (fresh_address_spec r2.2) as [F3 _].
  rewrite D1 in F2. rewrite D2, D1 in F3.
  apply not_elem_of_union in F2 as [F21%not_elem_of_singleton F2o].
  apply not_elem_of_union in F3 as [F32%not_elem_of_singleton F3].
  apply not_elem_of_union in F3 as [F31%not_elem_of_singleton F3o].
  rewrite V1, V2, V3.
  split; [intros [= E]; congruence|]. split; [intros [= E]; congruence|].
  split; [intros [= E]; congruence|].
  split; [intros [= E]; by rewrite E in F1|].
  split; [intros [= E]; by rewrite E in F2o|].
  split; [intros [= E]; by rewrite E in F3o|].
  split; [|split].
  - unfold staticArray. apply static_reuse. by rewrite O3, O2.
  - unfold staticArray2. apply static_reuse. by rewrite O3.
  - unfold staticObject. by apply static_reuse.
Qed.

Lemma static_holders_are_distinct_witness :
  let s := Store {[ 0%nat := ∅ ]} ∅ in
  let r1 := staticArray 0 s in
  let r2 := staticArray2 0 r1.2 in
  let r3 := staticObject 0 r2.2 in
  r1.1 ≠ r2.1 ∧ r1.1 ≠ r3.1 ∧ r2.1 ≠ r3.1
  ∧ r1.1 ≠ Ref 0 ∧ r2.1 ≠ Ref 0 ∧ r3.1 ≠ Ref 0
  ∧ staticArray 0 r3.2 = (r1.1, r3.2)
  ∧ staticArray2 0 r3.2 = (r2.1, r3.2)
  ∧ staticObject 0 r3.2 = (r3.1, r3.2).
Proof.
  apply (static_holders_are_distinct 0 (Store {[ 0%nat := ∅ ]} ∅));
    [vm_compute; reflexivity|reflexivity..].
Defined.

(** * The console after the load *)

(** X26: the last two statements of the file never replace a method the
    host has: after the load [console.warn] (and [console.error]) is the
    host's own when there is one, the host's [console.log] otherwise, and
    missing when the host has neither; every other method is as the host
    has it. *)
Theorem load_console (host : gmap string level) :
  console (load host) !! "warn"
  = match host !! "warn" with Some f => Some f | None => host !! "log" end
  ∧ console (load host) !! "error"
    = match host !! "error" with Some f => Some f | None => host !! "log" end
  ∧ (∀ m, m ≠ "warn" → m ≠ "error" → console (load host) !! m = host !! m).
Proof.
  simpl. split; [|split].
  - rewrite or_log_other by done. unfold or_log.
    destruct (host !! "warn") as [f|] eqn:Hw.
    + by rewrite lookup_insert_eq.
    + destruct (host !! "log") as [f|] eqn:Hl; [by rewrite lookup_insert_eq|done].
  - unfold or_log at 1. rewrite !or_log_other by done.
    destruct (host !! "error") as [f|] eqn:He.
    + by rewrite lookup_insert_eq.
    + destruct (host !! "log") as [f|] eqn:Hl; [by rewrite lookup_insert_eq|].
      by rewrite or_log_other.
  - intros m Hw He. by rewrite !or_log_other.
Qed.

(** * Order of the registrations *)


